(** * go-pingdom: the TMS check resource client ([pingdom/tms_check.go])

    A shallow embedding of the validation rules, the parameter mappings, the
    wire projection and the service operations of [TmsCheckService], with the
    properties of the written specification stated over it.

    Conventions.
    - A Go [string] is a [string] (a sequence of bytes), a Go [int] is a [Z];
      the code performs no arithmetic on ints, only comparisons.
    - A Go slice is an [option (list A)]: [None] is the nil slice, which
      [encoding/json] writes as [null].  The argument map of a step is an
      [option (gmap K V)], [None] for the nil map; a map of query parameters,
      which only the collaborator reads, is a [gmap].
    - A [*time.Time] is an [option Time]; a [*int] is an [option Z].
    - An [error] result is an [option] of an error value: [None] is [nil]. *)

From Stdlib Require Import ZArith List Ascii String Bool Lia.
From stdpp Require Import base option gmap strings pretty list fin_maps.

Set Warnings "-register-all".

Open Scope string_scope.
Open Scope Z_scope.

(* ===================================================================== *)
(** ** The [strings] functions the file calls *)
(* ===================================================================== *)

Module Strings.

Definition comma : ascii := Ascii.ascii_of_nat 44.

(** [strings.Count(s, ",")]. *)
Fixpoint CountComma (s : string) : nat :=
  match s with
  | EmptyString => O
  | String c r => if Ascii.eqb c comma then S (CountComma r) else CountComma r
  end.

(** Put a byte in front of the first segment of a split. *)
Definition cons_head (c : ascii) (l : list string) : list string :=
  match l with
  | [] => [String c EmptyString]
  | x :: r => String c x :: r
  end.

(** [strings.Split(s, ",")]: the segments between the commas, in order.
    The empty string has the single segment [""]. *)
Fixpoint SplitComma (s : string) : list string :=
  match s with
  | EmptyString => [EmptyString]
  | String c r =>
      if Ascii.eqb c comma then EmptyString :: SplitComma r
      else cons_head c (SplitComma r)
  end.

(** [strings.Join(elems, sep)]. *)
Fixpoint Join (elems : list string) (sep : string) : string :=
  match elems with
  | [] => EmptyString
  | [x] => x
  | x :: r => String.append x (String.append sep (Join r sep))
  end.

(** The UTF-8 encodings of the runes for which [unicode.IsSpace] holds:
    U+0009..U+000D, U+0020, U+0085, U+00A0, U+1680, U+2000..U+200A,
    U+2028, U+2029, U+202F, U+205F, U+3000. *)
Definition bytes (l : list nat) : list ascii := List.map Ascii.ascii_of_nat l.

Definition space_runes : list (list ascii) :=
  List.map bytes
    ([ [9]; [10]; [11]; [12]; [13]; [32];
       [194; 133]; [194; 160];
       [225; 154; 128];
       [226; 128; 128]; [226; 128; 129]; [226; 128; 130]; [226; 128; 131];
       [226; 128; 132]; [226; 128; 133]; [226; 128; 134]; [226; 128; 135];
       [226; 128; 136]; [226; 128; 137]; [226; 128; 138];
       [226; 128; 168]; [226; 128; 169]; [226; 128; 175];
       [226; 129; 159];
       [227; 128; 128] ])%nat.

Fixpoint strip_prefix (p l : list ascii) : option (list ascii) :=
  match p, l with
  | [], _ => Some l
  | a :: p', b :: l' => if Ascii.eqb a b then strip_prefix p' l' else None
  | _ :: _, [] => None
  end.

(** The rest of [l] after one leading space rune out of [rs], if any. *)
Fixpoint strip_one (rs : list (list ascii)) (l : list ascii) : option (list ascii) :=
  match rs with
  | [] => None
  | p :: rs' =>
      match strip_prefix p l with
      | Some l' => Some l'
      | None => strip_one rs' l
      end
  end.

(** [strings.TrimLeftFunc(s, unicode.IsSpace)] on the bytes of [s]; the
    fuel is the number of bytes, and every strip removes at least one. *)
Fixpoint trim_left (rs : list (list ascii)) (fuel : nat) (l : list ascii) : list ascii :=
  match fuel with
  | O => l
  | S n =>
      match strip_one rs l with
      | Some l' => trim_left rs n l'
      | None => l
      end
  end.

Definition TrimLeftSpace (l : list ascii) : list ascii :=
  trim_left space_runes (length l) l.

(** Trimming on the right reads the string backwards, where the last
    rune shows as the reversed encoding. *)
Definition TrimRightSpace (l : list ascii) : list ascii :=
  rev (trim_left (List.map (@rev ascii) space_runes) (length l) (rev l)).

(** [strings.TrimSpace(s)]. *)
Definition TrimSpace (s : string) : string :=
  string_of_list_ascii (TrimRightSpace (TrimLeftSpace (list_ascii_of_string s))).

End Strings.

(* ===================================================================== *)
(** ** What [encoding/json] does to the bytes of a string *)
(* ===================================================================== *)

Module Utf8.

Definition code (c : ascii) : N := N_of_ascii c.

Definition between (lo hi : N) (c : ascii) : bool :=
  ((lo <=? code c) && (code c <=? hi))%N.

(** A continuation byte, 0x80..0xBF. *)
Definition continuation (c : ascii) : bool := between 128 191 c.

(** The tables [first] and [acceptRanges] of [unicode/utf8] for a byte from
    0x80 on: the width of the encoding it leads and the range its second
    byte must lie in; the bytes 0x80..0xC1 and 0xF5..0xFF lead none. *)
Definition lead (c : ascii) : option (nat * N * N) :=
  let x := code c in
  (if x <? 194 then None
   else if x <=? 223 then Some (2%nat, 128, 191)
   else if x =? 224 then Some (3%nat, 160, 191)
   else if x <=? 236 then Some (3%nat, 128, 191)
   else if x =? 237 then Some (3%nat, 128, 159)
   else if x <=? 239 then Some (3%nat, 128, 191)
   else if x =? 240 then Some (4%nat, 144, 191)
   else if x <=? 243 then Some (4%nat, 128, 191)
   else if x =? 244 then Some (4%nat, 128, 143)
   else None)%N.

(** The bytes after the lead byte of an encoding of width [sz]. *)
Definition tail_ok (sz : nat) (lo hi : N) (r : list ascii) : bool :=
  match sz, r with
  | 2%nat, s1 :: _ => between lo hi s1
  | 3%nat, s1 :: s2 :: _ => between lo hi s1 && continuation s2
  | 4%nat, s1 :: s2 :: s3 :: _ =>
      between lo hi s1 && continuation s2 && continuation s3
  | _, _ => false
  end.

(** [utf8.DecodeRuneInString], as far as the encoder looks at it: the width
    of the encoding at the head of [l], or [None] where Go answers
    [(RuneError, 1)] (and for the empty string). *)
Definition DecodeRune (l : list ascii) : option nat :=
  match l with
  | [] => None
  | s0 :: r =>
      if (code s0 <? 128)%N then Some 1%nat
      else match lead s0 with
           | None => None
           | Some (sz, lo, hi) => if tail_ok sz lo hi r then Some sz else None
           end
  end.

(** U+FFFD, the replacement character, in UTF-8. *)
Definition replacement : list ascii :=
  List.map Ascii.ascii_of_nat [239; 191; 189]%nat.

(** The string a JSON string written by [encoding/json] denotes: every
    encoding is kept, and every byte that starts none is replaced by
    U+FFFD.  The fuel is the number of bytes. *)
Fixpoint to_valid (fuel : nat) (l : list ascii) : list ascii :=
  match fuel with
  | O => []
  | S n =>
      match l with
      | [] => []
      | s0 :: r =>
          match DecodeRune l with
          | Some k => List.firstn k l ++ to_valid n (List.skipn k l)
          | None => replacement ++ to_valid n r
          end
      end
  end.

Definition ToValid (l : list ascii) : list ascii := to_valid (length l) l.

Definition ToValidUTF8 (s : string) : string :=
  string_of_list_ascii (ToValid (list_ascii_of_string s)).

(** [utf8.ValidString]. *)
Fixpoint valid (fuel : nat) (l : list ascii) : bool :=
  match fuel with
  | O => match l with [] => true | _ => false end
  | S n =>
      match l with
      | [] => true
      | _ :: _ =>
          match DecodeRune l with
          | Some k => valid n (List.skipn k l)
          | None => false
          end
      end
  end.

Definition ValidString (s : string) : bool :=
  valid (String.length s) (list_ascii_of_string s).

(** [utf8.EncodeRune] for a code point that is no surrogate. *)
Definition EncodeRune (cp : N) : list ascii :=
  let byte (n : N) := ascii_of_N n in
  (if cp <? 128 then [byte cp]
   else if cp <? 2048 then [byte (192 + cp / 64); byte (128 + cp mod 64)]
   else if cp <? 65536
   then [byte (224 + cp / 4096); byte (128 + (cp / 64) mod 64);
         byte (128 + cp mod 64)]
   else [byte (240 + cp / 262144); byte (128 + (cp / 4096) mod 64);
         byte (128 + (cp / 64) mod 64); byte (128 + cp mod 64)])%N.

(** [unicode.IsSpace]. *)
Definition IsSpace (cp : N) : bool :=
  ((9 <=? cp) && (cp <=? 13) || (cp =? 32) || (cp =? 133) || (cp =? 160)
   || (cp =? 5760) || (8192 <=? cp) && (cp <=? 8202) || (cp =? 8232)
   || (cp =? 8233) || (cp =? 8239) || (cp =? 8287) || (cp =? 12288))%N.

End Utf8.

(* ===================================================================== *)
(** ** Data model *)
(* ===================================================================== *)

(** A Go slice, with its nil value. *)
Definition slice (A : Type) : Type := option (list A).

Record TmsStep := {
  Function : string;
  Args : option (gmap string string)
}.

Record TmsCheck := {
  ID : Z;
  Name : string;
  Steps : slice TmsStep;
  Active : bool;
  ContactIds : slice Z;
  CustomMessage : string;
  IntegrationIds : slice Z;
  Interval : Z;
  Region : string;
  SendNotificationWhenDown : Z;
  SeverityLevel : string;
  Tags : string;
  TeamIds : slice Z
}.

(** The errors [Valid] builds with [fmt.Errorf], one constructor per message,
    carrying the offending value where the message prints it. *)
Inductive ValidationError : Type :=
| ErrName
| ErrRegion (v : string)
| ErrSeverityLevel (v : string)
| ErrInterval (v : Z)
| ErrFromAfterTo
| ErrOffset
| ErrLimit
| ErrOrder
| ErrResolution.

Definition NewTmsCheck (name : string) (steps : slice TmsStep) : TmsCheck :=
  {| ID := 0;
     Name := name;
     Steps := steps;
     Active := true;
     ContactIds := None;
     CustomMessage := "";
     IntegrationIds := None;
     Interval := 10;
     Region := "us-east";
     SendNotificationWhenDown := 1;
     SeverityLevel := "high";
     Tags := "";
     TeamIds := None |}.

Definition sneq (a b : string) : bool := negb (String.eqb a b).
Definition zneq (a b : Z) : bool := negb (Z.eqb a b).

(** [TmsCheck.Valid]. *)
Definition TmsCheck_Valid (ts : TmsCheck) : option ValidationError :=
  if String.eqb (Name ts) "" then Some ErrName
  else if sneq (Region ts) "us-east" && sneq (Region ts) "us-west"
          && sneq (Region ts) "eu" && sneq (Region ts) "au"
  then Some (ErrRegion (Region ts))
  else if sneq (SeverityLevel ts) "high" && sneq (SeverityLevel ts) "low"
  then Some (ErrSeverityLevel (SeverityLevel ts))
  else if zneq (Interval ts) 5 && zneq (Interval ts) 10 && zneq (Interval ts) 20
          && zneq (Interval ts) 60 && zneq (Interval ts) 720
          && zneq (Interval ts) 1440
  then Some (ErrInterval (Interval ts))
  else None.

(* ===================================================================== *)
(** ** Report requests *)
(* ===================================================================== *)

(** A [time.Time] as the instant it denotes: seconds and nanoseconds since
    the epoch.  The wall-clock presentation (location, layout) only matters
    to [Format], which the parameter mappings take as [formatRFC3339]. *)
Record Time := { unixSec : Z; nanos : Z }.

(** [t.Before(u)]. *)
Definition Before (t u : Time) : bool :=
  (unixSec t <? unixSec u) || ((unixSec t =? unixSec u) && (nanos t <? nanos u)).

Definition DESC : string := "desc".
Definition ASC : string := "asc".
Definition HOUR : string := "hour".
Definition DAY : string := "day".
Definition WEEK : string := "week".

(** The test all three [Valid] methods start with:
    [tr.To != nil && tr.From != nil && tr.To.Before( *tr.From)]. *)
Definition to_before_from (from to : option Time) : bool :=
  match to, from with
  | Some t, Some f => Before t f
  | _, _ => false
  end.

(** [switch tr.Order { case DESC, ASC, "": default: return error }]. *)
Definition order_allowed (o : string) : bool :=
  String.eqb o DESC || String.eqb o ASC || String.eqb o "".

(** [switch tr.Resolution { case HOUR, DAY, WEEK, "": default: return error }]. *)
Definition resolution_allowed (r : string) : bool :=
  String.eqb r HOUR || String.eqb r DAY || String.eqb r WEEK || String.eqb r "".

(** [strconv.Itoa]. *)
Definition Itoa (n : Z) : string := pretty n.

Module TmsStatusReportListByIdRequest.

Record t := { From : option Time; To : option Time; Order : string }.

Definition Valid (tr : t) : option ValidationError :=
  if to_before_from (From tr) (To tr) then Some ErrFromAfterTo
  else if order_allowed (Order tr) then None
  else Some ErrOrder.

Section Params.
Variable formatRFC3339 : Time -> string.

Definition GetParams (tr : t) : gmap string string :=
  let m : gmap string string := ∅ in
  let m := match From tr with Some f => <["from" := formatRFC3339 f]> m | None => m end in
  let m := match To tr with Some u => <["to" := formatRFC3339 u]> m | None => m end in
  let m := if (0 <? String.length (Order tr))%nat then <["order" := Order tr]> m else m in
  m.
End Params.

End TmsStatusReportListByIdRequest.

Module TmsStatusReportListRequest.

Record t := {
  From : option Time;
  To : option Time;
  Order : string;
  Limit : option Z;
  Offset : option Z;
  OmitEmpty : bool
}.

Definition Valid (tr : t) : option ValidationError :=
  if to_before_from (From tr) (To tr) then Some ErrFromAfterTo
  else if match Offset tr with Some o => o <? 0 | None => false end
  then Some ErrOffset
  else if match Limit tr with Some l => l <=? 0 | None => false end
  then Some ErrLimit
  else if order_allowed (Order tr) then None
  else Some ErrOrder.

Section Params.
Variable formatRFC3339 : Time -> string.

Definition GetParams (tr : t) : gmap string string :=
  let m : gmap string string := ∅ in
  let m := match From tr with Some f => <["from" := formatRFC3339 f]> m | None => m end in
  let m := match To tr with Some u => <["to" := formatRFC3339 u]> m | None => m end in
  let m := match Offset tr with Some o => <["offset" := Itoa o]> m | None => m end in
  let m := match Limit tr with Some l => <["limit" := Itoa l]> m | None => m end in
  let m := if (0 <? String.length (Order tr))%nat then <["order" := Order tr]> m else m in
  let m := if OmitEmpty tr then <["omit_empty" := "true"]> m else m in
  m.
End Params.

End TmsStatusReportListRequest.

Module TmsPerformanceReportRequest.

Record t := {
  From : option Time;
  To : option Time;
  Order : string;
  IncludeUptime : bool;
  Resolution : string
}.

Definition Valid (tr : t) : option ValidationError :=
  if to_before_from (From tr) (To tr) then Some ErrFromAfterTo
  else if negb (order_allowed (Order tr)) then Some ErrOrder
  else if resolution_allowed (Resolution tr) then None
  else Some ErrResolution.

Section Params.
Variable formatRFC3339 : Time -> string.

Definition GetParams (tr : t) : gmap string string :=
  let m : gmap string string := ∅ in
  let m := match From tr with Some f => <["from" := formatRFC3339 f]> m | None => m end in
  let m := match To tr with Some u => <["to" := formatRFC3339 u]> m | None => m end in
  let m := if (0 <? String.length (Order tr))%nat then <["order" := Order tr]> m else m in
  let m := if IncludeUptime tr then <["include_uptime" := "true"]> m else m in
  let m := if (0 <? String.length (Resolution tr))%nat
           then <["resolution" := Resolution tr]> m else m in
  m.
End Params.

End TmsPerformanceReportRequest.

(* ===================================================================== *)
(** ** The wire projection of a check *)
(* ===================================================================== *)

(** A JSON document, as a reader of the text [encoding/json] writes sees
    it: a string is the byte string its escapes denote, and an object is the
    finite map from its keys to their values.  The text itself (key order,
    escapes) is not modelled. *)
Inductive json : Type :=
| JNull
| JBool (b : bool)
| JNumber (n : Z)
| JString (s : string)
| JArray (l : list json)
| JObject (m : gmap string json).

(** The member of an object under a key. *)
Definition member (k : string) (j : json) : option json :=
  match j with
  | JObject m => m !! k
  | _ => None
  end.

(** The values [RenderForJSONAPI] stores in its [map[string]interface{}],
    by their Go type. *)
Inductive value : Type :=
| VString (s : string)
| VBool (b : bool)
| VInt (n : Z)
| VInts (l : slice Z)
| VStrings (l : slice string)
| VSteps (l : slice TmsStep).

(** [json.Marshal] of a slice: a nil slice is [null]. *)
Definition marshal_slice {A : Type} (f : A -> json) (l : slice A) : json :=
  match l with
  | None => JNull
  | Some xs => JArray (List.map f xs)
  end.

(** A string as the encoder writes it: valid UTF-8, see [Utf8.ToValid]. *)
Definition marshal_string (s : string) : json := JString (Utf8.ToValidUTF8 s).

(** One entry of a Go map on its way into a JSON object whose keys are the
    written forms of the Go keys.  The encoder writes the entries in the byte
    order of the Go keys, and of two entries written under one key a reader
    keeps the later: [acc] holds, under each written key, the entry with the
    greatest Go key so far. *)
Definition keep_later (kv : string * string)
    (acc : gmap string (string * string)) : gmap string (string * string) :=
  match acc !! Utf8.ToValidUTF8 kv.1 with
  | Some (k0, _) =>
      if String.ltb k0 kv.1 then <[Utf8.ToValidUTF8 kv.1 := kv]> acc else acc
  | None => <[Utf8.ToValidUTF8 kv.1 := kv]> acc
  end.

Definition written_entries (m : gmap string string) : gmap string (string * string) :=
  foldr keep_later ∅ (map_to_list m).

(** [json.Marshal] of a [map[string]string]. *)
Definition marshal_args (m : gmap string string) : gmap string json :=
  (fun kv : string * string => marshal_string kv.2) <$> written_entries m.

(** [json.Marshal] of a [TmsStep]: both fields are tagged [omitempty], so an
    empty function name and a nil or empty argument map leave no member. *)
Definition marshal_step (s : TmsStep) : json :=
  let o : gmap string json := ∅ in
  let o := if String.eqb (Function s) "" then o
           else <["fn" := marshal_string (Function s)]> o in
  let o := match Args s with
           | None => o
           | Some m => if decide (m = ∅) then o
                       else <["args" := JObject (marshal_args m)]> o
           end in
  JObject o.

Definition marshal_value (v : value) : json :=
  match v with
  | VString s => marshal_string s
  | VBool b => JBool b
  | VInt n => JNumber n
  | VInts l => marshal_slice JNumber l
  | VStrings l => marshal_slice marshal_string l
  | VSteps l => marshal_slice marshal_step l
  end.

(** [json.Marshal] of a [map[string]interface{}]; it cannot fail on the
    value types above. *)
Definition Marshal (u : gmap string value) : json :=
  JObject (marshal_value <$> u).

(** The loop of [RenderForJSONAPI] over [strings.Split(ts.Tags, ",")]. *)
Definition wire_tags (tags : string) : list string :=
  List.map Strings.TrimSpace (Strings.SplitComma tags).

(** The map literal [u] of [RenderForJSONAPI]. *)
Definition wire_map (ts : TmsCheck) : gmap string value :=
  let tags := wire_tags (Tags ts) in
  list_to_map
    [ ("name", VString (Name ts));
      ("steps", VSteps (Steps ts));
      ("active", VBool (Active ts));
      ("contact_ids", VInts (ContactIds ts));
      ("custom_message", VString (CustomMessage ts));
      ("integration_ids", VInts (IntegrationIds ts));
      ("interval", VInt (Interval ts));
      ("region", VString (Region ts));
      ("severity_level", VString (SeverityLevel ts));
      ("send_notification_when_down", VInt (SendNotificationWhenDown ts));
      ("tags", VStrings (Some tags));
      ("team_ids", VInts (TeamIds ts)) ].

(** [TmsCheck.RenderForJSONAPI]: the document whose text the method
    returns. *)
Definition RenderForJSONAPI (ts : TmsCheck) : json :=
  Marshal (wire_map ts).

(* ===================================================================== *)
(** ** Wire responses *)
(* ===================================================================== *)

Module TmsCheckResponse.

(** Modelled from the spec: the private wire-response struct
    [TmsCheckResponse] is declared in another file of the package.  Its
    fields are the ones [fromTmsCheckResponse] reads, with the types the
    assignments to the fields of [TmsCheck] force; the tags are the list of
    strings [strings.Join] takes. *)
Record t := {
  ID : Z;
  Name : string;
  Steps : slice TmsStep;
  Active : bool;
  ContactIds : slice Z;
  CustomMessage : string;
  IntegrationIds : slice Z;
  Interval : Z;
  Region : string;
  SendNotificationWhenDown : Z;
  SeverityLevel : string;
  Tags : slice string;
  TeamIds : slice Z
}.

End TmsCheckResponse.

(** The elements of a slice; [range] and [strings.Join] see no element in a
    nil slice. *)
Definition elems {A : Type} (l : slice A) : list A :=
  match l with
  | None => []
  | Some xs => xs
  end.

(** [fromTmsCheckResponse], at a non-nil [cr]. *)
Definition fromTmsCheckResponse (cr : TmsCheckResponse.t) : TmsCheck :=
  {| ID := TmsCheckResponse.ID cr;
     Name := TmsCheckResponse.Name cr;
     Steps := TmsCheckResponse.Steps cr;
     Active := TmsCheckResponse.Active cr;
     ContactIds := TmsCheckResponse.ContactIds cr;
     CustomMessage := TmsCheckResponse.CustomMessage cr;
     IntegrationIds := TmsCheckResponse.IntegrationIds cr;
     Interval := TmsCheckResponse.Interval cr;
     Region := TmsCheckResponse.Region cr;
     SendNotificationWhenDown := TmsCheckResponse.SendNotificationWhenDown cr;
     SeverityLevel := TmsCheckResponse.SeverityLevel cr;
     Tags := Strings.Join (elems (TmsCheckResponse.Tags cr)) ",";
     TeamIds := TmsCheckResponse.TeamIds cr |}.

(** *** The synthetic response to a rendered body *)

Definition as_string (j : json) : option string :=
  match j with JString s => Some s | _ => None end.

Definition as_int (j : json) : option Z :=
  match j with JNumber n => Some n | _ => None end.

Definition as_bool (j : json) : option bool :=
  match j with JBool b => Some b | _ => None end.

Definition as_slice {A : Type} (f : json -> option A) (j : json) : option (slice A) :=
  match j with
  | JNull => Some None
  | JArray l => Some <$> mapM f l
  | _ => None
  end.

(** A member read with [f]; an absent member leaves the zero value [z]. *)
Definition read {A : Type} (f : json -> option A) (z : A) (k : string)
    (o : gmap string json) : option A :=
  match o !! k with
  | None => Some z
  | Some j => f j
  end.

Definition as_args (j : json) : option (option (gmap string string)) :=
  match j with
  | JNull => Some None
  | JObject a =>
      if decide (map_Forall (fun _ v => is_Some (as_string v)) a)
      then Some (Some (omap as_string a)) else None
  | _ => None
  end.

Definition as_step (j : json) : option TmsStep :=
  match j with
  | JObject o =>
      fn ← read as_string "" "fn" o;
      args ← read as_args None "args" o;
      Some {| Function := fn; Args := args |}
  | _ => None
  end.

(** Modelled from the spec: the synthetic response of the round-trip
    property, which answers a rendered body with the check the body
    describes under the server-assigned identifier [id].  Members are read
    under the field names of the JSON body; a member of the wrong JSON type
    has no reading. *)
Definition synthetic_response (id : Z) (body : json) : option TmsCheckResponse.t :=
  match body with
  | JObject o =>
      name ← read as_string "" "name" o;
      steps ← read (as_slice as_step) None "steps" o;
      active ← read as_bool false "active" o;
      contact_ids ← read (as_slice as_int) None "contact_ids" o;
      custom_message ← read as_string "" "custom_message" o;
      integration_ids ← read (as_slice as_int) None "integration_ids" o;
      interval ← read as_int 0 "interval" o;
      region ← read as_string "" "region" o;
      notify ← read as_int 0 "send_notification_when_down" o;
      severity_level ← read as_string "" "severity_level" o;
      tags ← read (as_slice as_string) None "tags" o;
      team_ids ← read (as_slice as_int) None "team_ids" o;
      Some {| TmsCheckResponse.ID := id;
              TmsCheckResponse.Name := name;
              TmsCheckResponse.Steps := steps;
              TmsCheckResponse.Active := active;
              TmsCheckResponse.ContactIds := contact_ids;
              TmsCheckResponse.CustomMessage := custom_message;
              TmsCheckResponse.IntegrationIds := integration_ids;
              TmsCheckResponse.Interval := interval;
              TmsCheckResponse.Region := region;
              TmsCheckResponse.SendNotificationWhenDown := notify;
              TmsCheckResponse.SeverityLevel := severity_level;
              TmsCheckResponse.Tags := tags;
              TmsCheckResponse.TeamIds := team_ids |}
  | _ => None
  end.

Module tmsCheckDetailsJSONResponse.

(** Modelled from the spec: the envelope of a single check, declared in
    another file of the package; [TmsCheck] is the pointer the operations
    pass to [fromTmsCheckResponse], [None] when it is nil. *)
Record t := { TmsCheck : option TmsCheckResponse.t }.

End tmsCheckDetailsJSONResponse.

Module listTmsChecksJSONResponse.

(** Modelled from the spec: the envelope of the check list, declared in
    another file of the package; [List] ranges over [TmsChecks]. *)
Record t := { TmsChecks : slice TmsCheckResponse.t }.

End listTmsChecksJSONResponse.

(* ===================================================================== *)
(** ** The service operations *)
(* ===================================================================== *)

(** What a call of an operation ends in: a value with a nil error, an error
    with a nil value, or a nil-pointer panic. *)
Inductive outcome (E A : Type) : Type :=
| Returned (a : A)
| Failed (e : E)
| Panicked.

Arguments Returned {E A} a.
Arguments Failed {E A} e.
Arguments Panicked {E A}.

(** What [json.Unmarshal(data, &m)] leaves for a pointer [m] to a fresh
    struct: the JSON text [null] sets [m] to nil and reports no error; any
    other text leaves [m] pointing to the struct, filled as far as decoding
    went, with the decode error if there is one. *)
Inductive unmarshalled (A E : Type) : Type :=
| SetNil
| Filled (m : A) (err : option E).

Arguments SetNil {A E}.
Arguments Filled {A E} m err.

(** The HTTP client collaborator, as far as the operations see it: its
    requests, responses and errors, the response types of the delete and
    report operations, the status code of a response and the error made
    from a refused one, and [json.Unmarshal] at the check-list envelope. *)
Class Client : Type := {
  Request : Type;
  Response : Type;
  ClientError : Type;
  DecodeError : Type;
  PingdomResponse : Type;
  TmsStatusChangeResponse : Type;
  TmsPerformanceReportResponse : Type;
  StatusCode : Response -> Z;
  responseError : Response -> ClientError;
  unmarshalList : string -> unmarshalled listTmsChecksJSONResponse.t DecodeError
}.

Section Service.

Context `{Client}.

Inductive error : Type :=
| Validation (e : ValidationError)
| FromClient (e : ClientError).

(** A [(value, error)] pair returned by the collaborator. *)
Inductive res (A : Type) : Type :=
| Ok (a : A)
| Err (e : ClientError).

Arguments Ok {A} a.
Arguments Err {A} e.

(** The struct a call of [client.Do(req, m)] decodes into. *)
Inductive target : Type :=
| IntoCheckDetails
| IntoPingdomResponse
| IntoStatusChange
| IntoPerformanceReport.

Definition into (t : target) : Type :=
  match t with
  | IntoCheckDetails => tmsCheckDetailsJSONResponse.t
  | IntoPingdomResponse => PingdomResponse
  | IntoStatusChange => TmsStatusChangeResponse
  | IntoPerformanceReport => TmsPerformanceReportResponse
  end.

(** The calls an operation makes on the collaborator, with the type of
    what each gives back. *)
Inductive call : Type -> Type :=
| NewRequest (method path : string) (params : gmap string string) : call (res Request)
| NewJSONRequest (method path : string) (body : json) : call (res Request)
| Do (req : Request) (t : target) : call (res (into t))
| HttpDo (req : Request) : call (res Response)
| ReadAll (resp : Response) : call string
| CloseBody (resp : Response) : call unit.

(** An operation: a finite tree of calls, each continued with its answer. *)
Inductive prog (A : Type) : Type :=
| Ret (a : A)
| Call (X : Type) (c : call X) (k : X -> prog A).

Arguments Ret {A} a.
Arguments Call {A X} c k.

Fixpoint bind {A B : Type} (p : prog A) (f : A -> prog B) : prog B :=
  match p with
  | Ret a => f a
  | Call c k => Call c (fun x => bind (k x) f)
  end.

Definition perform {X : Type} (c : call X) : prog X := Call c Ret.

#[local] Instance prog_ret : MRet prog := fun A a => Ret a.
#[local] Instance prog_bind : MBind prog := fun A B f p => bind p f.

(** A call as it shows in a log. *)
Inductive logged : Type :=
| Logged (X : Type) (c : call X).

Arguments Logged {X} c.

(** Run an operation against a collaborator [h] that answers each call from
    a state [W]: the result, the final state and the calls made, in order. *)
Fixpoint run {W A : Type} (h : forall X, call X -> W -> X * W) (p : prog A) (w : W)
    : A * W * list logged :=
  match p with
  | Ret a => (a, w, [])
  | Call c k =>
      let '(x, w1) := h _ c w in
      let '(a, w2, t) := run h (k x) w1 in
      (a, w2, Logged c :: t)
  end.

(** Modelled from the spec: [validateResponse], declared in another file of
    the package, turns a non-2xx status into an error that carries the status
    and the message of the service. *)
Definition validateResponse (resp : Response) : option ClientError :=
  if (200 <=? StatusCode resp) && (StatusCode resp <=? 299) then None
  else Some (responseError resp).

(** The tail [fromTmsCheckResponse(m.TmsCheck)] of Create, Read and Update:
    reading the fields of a nil [m.TmsCheck] panics. *)
Definition fromDetails (m : tmsCheckDetailsJSONResponse.t) : outcome error TmsCheck :=
  match tmsCheckDetailsJSONResponse.TmsCheck m with
  | None => Panicked
  | Some cr => Returned (fromTmsCheckResponse cr)
  end.

(** [client.Do(req, m)] followed by the error check and [finish]. *)
Definition doInto {A : Type} (req : Request) (t : target)
    (finish : into t -> outcome error A) : prog (outcome error A) :=
  r ← perform (Do req t);
  match r with
  | Err err => mret (Failed (FromClient err))
  | Ok m => mret (finish m)
  end.

(** [TmsCheckService.List]. *)
Definition List (params : list (gmap string string)) : prog (outcome error (list TmsCheck)) :=
  let param := match params with [p] => p | _ => ∅ end in
  r ← perform (NewRequest "GET" "/tms/check" param);
  match r with
  | Err err => mret (Failed (FromClient err))
  | Ok req =>
      r ← perform (HttpDo req);
      match r with
      | Err err => mret (Failed (FromClient err))
      | Ok resp =>
          (* from here on the deferred [resp.Body.Close()] runs at exit *)
          match validateResponse resp with
          | Some err => _ ← perform (CloseBody resp); mret (Failed (FromClient err))
          | None =>
              bodyString ← perform (ReadAll resp);
              match unmarshalList bodyString with
              | SetNil => _ ← perform (CloseBody resp); mret Panicked
              | Filled m _ =>
                  let checks :=
                    fromTmsCheckResponse <$> elems (listTmsChecksJSONResponse.TmsChecks m) in
                  _ ← perform (CloseBody resp);
                  mret (Returned checks)
              end
          end
      end
  end.

(** [TmsCheckService.Create]. *)
Definition Create (check : TmsCheck) : prog (outcome error TmsCheck) :=
  match TmsCheck_Valid check with
  | Some err => mret (Failed (Validation err))
  | None =>
      r ← perform (NewJSONRequest "POST" "/tms/check" (RenderForJSONAPI check));
      match r with
      | Err err => mret (Failed (FromClient err))
      | Ok req => doInto req IntoCheckDetails fromDetails
      end
  end.

(** [TmsCheckService.Read]. *)
Definition Read (id : Z) : prog (outcome error TmsCheck) :=
  r ← perform (NewRequest "GET" (String.append "/tms/check/" (Itoa id)) ∅);
  match r with
  | Err err => mret (Failed (FromClient err))
  | Ok req => doInto req IntoCheckDetails fromDetails
  end.

(** [TmsCheckService.Update]. *)
Definition Update (id : Z) (tmsCheck : TmsCheck) : prog (outcome error TmsCheck) :=
  match TmsCheck_Valid tmsCheck with
  | Some err => mret (Failed (Validation err))
  | None =>
      r ← perform (NewJSONRequest "PUT" (String.append "/tms/check/" (Itoa id))
                     (RenderForJSONAPI tmsCheck));
      match r with
      | Err err => mret (Failed (FromClient err))
      | Ok req => doInto req IntoCheckDetails fromDetails
      end
  end.

(** [TmsCheckService.Delete]. *)
Definition Delete (id : Z) : prog (outcome error PingdomResponse) :=
  r ← perform (NewRequest "DELETE" (String.append "/tms/check/" (Itoa id)) ∅);
  match r with
  | Err err => mret (Failed (FromClient err))
  | Ok req => doInto req IntoPingdomResponse Returned
  end.

Section Reports.
Variable formatRFC3339 : Time -> string.

(** [TmsCheckService.StatusReportList]. *)
Definition StatusReportList (request : TmsStatusReportListRequest.t)
    : prog (outcome error TmsStatusChangeResponse) :=
  match TmsStatusReportListRequest.Valid request with
  | Some err => mret (Failed (Validation err))
  | None =>
      r ← perform (NewRequest "GET" "/tms/check/report/status"
                     (TmsStatusReportListRequest.GetParams formatRFC3339 request));
      match r with
      | Err err => mret (Failed (FromClient err))
      | Ok req => doInto req IntoStatusChange Returned
      end
  end.

(** [TmsCheckService.StatusReportById]. *)
Definition StatusReportById (id : Z) (request : TmsStatusReportListByIdRequest.t)
    : prog (outcome error TmsStatusChangeResponse) :=
  match TmsStatusReportListByIdRequest.Valid request with
  | Some err => mret (Failed (Validation err))
  | None =>
      r ← perform (NewRequest "GET"
                     (String.append "/tms/check/" (String.append (Itoa id) "/report/status"))
                     (TmsStatusReportListByIdRequest.GetParams formatRFC3339 request));
      match r with
      | Err err => mret (Failed (FromClient err))
      | Ok req => doInto req IntoStatusChange Returned
      end
  end.

(** [TmsCheckService.PerformanceReport]. *)
Definition PerformanceReport (id : Z) (request : TmsPerformanceReportRequest.t)
    : prog (outcome error TmsPerformanceReportResponse) :=
  match TmsPerformanceReportRequest.Valid request with
  | Some err => mret (Failed (Validation err))
  | None =>
      r ← perform (NewRequest "GET"
                     (String.append "/tms/check/"
                        (String.append (Itoa id) "/report/performance"))
                     (TmsPerformanceReportRequest.GetParams formatRFC3339 request));
      match r with
      | Err err => mret (Failed (FromClient err))
      | Ok req => doInto req IntoPerformanceReport Returned
      end
  end.

End Reports.

End Service.

Arguments Ok {_ A} a.
Arguments Err {_ A} e.
Arguments Ret {_ A} a.
Arguments Call {_ A X} c k.
Arguments Logged {_ X} c.

(** A collaborator for running the operations without a network: requests
    are units, a response is its status code, and the decoder sets the
    target to nil on [null] and otherwise reports an error on an untouched
    envelope. *)
Definition stub : Client :=
  {| Request := unit;
     Response := Z;
     ClientError := Z;
     DecodeError := string;
     PingdomResponse := unit;
     TmsStatusChangeResponse := unit;
     TmsPerformanceReportResponse := unit;
     StatusCode := fun resp => resp;
     responseError := fun resp => resp;
     unmarshalList := fun body =>
       if String.eqb body "null" then SetNil
       else Filled {| listTmsChecksJSONResponse.TmsChecks := None |} (Some body) |}.

(** The stub's answers: every request is built, the transport answers 200
    with a body that is no JSON, and [client.Do] fails with a 500. *)
Definition stub_answer (X : Type) (c : @call stub X) (w : nat) : X * nat :=
  match c in call X0 return X0 * nat with
  | NewRequest _ _ _ => (@Ok stub unit tt, w)
  | NewJSONRequest _ _ _ => (@Ok stub unit tt, w)
  | Do _ t => (@Err stub (@into stub t) 500, S w)
  | HttpDo _ => (@Ok stub Z 200, S w)
  | ReadAll _ => ("<html>", w)
  | CloseBody _ => (tt, w)
  end.

(** The three variants of a report request, with the fields they share;
    a field a variant does not have reads as unset. *)
Inductive report_request : Type :=
| ForAll (r : TmsStatusReportListRequest.t)
| ById (r : TmsStatusReportListByIdRequest.t)
| Performance (r : TmsPerformanceReportRequest.t).

Definition request_Valid (q : report_request) : option ValidationError :=
  match q with
  | ForAll r => TmsStatusReportListRequest.Valid r
  | ById r => TmsStatusReportListByIdRequest.Valid r
  | Performance r => TmsPerformanceReportRequest.Valid r
  end.

Definition request_GetParams (format : Time -> string) (q : report_request)
    : gmap string string :=
  match q with
  | ForAll r => TmsStatusReportListRequest.GetParams format r
  | ById r => TmsStatusReportListByIdRequest.GetParams format r
  | Performance r => TmsPerformanceReportRequest.GetParams format r
  end.

Definition request_From (q : report_request) : option Time :=
  match q with
  | ForAll r => TmsStatusReportListRequest.From r
  | ById r => TmsStatusReportListByIdRequest.From r
  | Performance r => TmsPerformanceReportRequest.From r
  end.

Definition request_To (q : report_request) : option Time :=
  match q with
  | ForAll r => TmsStatusReportListRequest.To r
  | ById r => TmsStatusReportListByIdRequest.To r
  | Performance r => TmsPerformanceReportRequest.To r
  end.

Definition request_Order (q : report_request) : string :=
  match q with
  | ForAll r => TmsStatusReportListRequest.Order r
  | ById r => TmsStatusReportListByIdRequest.Order r
  | Performance r => TmsPerformanceReportRequest.Order r
  end.

Definition request_Offset (q : report_request) : option Z :=
  match q with
  | ForAll r => TmsStatusReportListRequest.Offset r
  | _ => None
  end.

Definition request_Limit (q : report_request) : option Z :=
  match q with
  | ForAll r => TmsStatusReportListRequest.Limit r
  | _ => None
  end.

Definition request_Resolution (q : report_request) : string :=
  match q with
  | Performance r => TmsPerformanceReportRequest.Resolution r
  | _ => ""
  end.

Definition request_OmitEmpty (q : report_request) : bool :=
  match q with
  | ForAll r => TmsStatusReportListRequest.OmitEmpty r
  | _ => false
  end.

Definition request_IncludeUptime (q : report_request) : bool :=
  match q with
  | Performance r => TmsPerformanceReportRequest.IncludeUptime r
  | _ => false
  end.

(** The fields of a request other than From and To hold values [Valid]
    accepts: an allowed order and resolution, an offset of at least 0 and a
    limit of at least 1 where they are set. *)
Definition other_fields_valid (q : report_request) : Prop :=
  order_allowed (request_Order q) = true
  /\ resolution_allowed (request_Resolution q) = true
  /\ (forall o, request_Offset q = Some o -> 0 <= o)
  /\ (forall l, request_Limit q = Some l -> 0 < l).

(** A member of a non-empty parameter: present exactly when the string is
    not empty. *)
Definition nonempty (s : string) : option string :=
  if String.eqb s "" then None else Some s.

(** A boolean flag as a parameter: ["true"] when set, no key otherwise. *)
Definition flag (b : bool) : option string :=
  if b then Some "true" else None.

(** The twelve field names of the JSON body. *)
Definition wire_keys : list string :=
  [ "name"; "steps"; "active"; "contact_ids"; "custom_message";
    "integration_ids"; "interval"; "region"; "severity_level";
    "send_notification_when_down"; "tags"; "team_ids" ].

(** A tag that survives the wire: it holds no comma, and [TrimSpace] leaves
    it as it is. *)
Definition comma_free (s : string) : Prop := Strings.CountComma s = O.

Definition trimmed (s : string) : Prop := Strings.TrimSpace s = s.

(** The number of commas in a list of tags. *)
Definition commas (l : list string) : nat :=
  list_sum (List.map Strings.CountComma l).

(** The check with a name and the zero value in every other field. *)
Definition bare_check (name : string) : TmsCheck :=
  {| ID := 0; Name := name; Steps := None; Active := false;
     ContactIds := None; CustomMessage := ""; IntegrationIds := None;
     Interval := 0; Region := ""; SendNotificationWhenDown := 0;
     SeverityLevel := ""; Tags := ""; TeamIds := None |}.

(** The response with the given tags and the zero value in every other
    field. *)
Definition bare_response (tags : slice string) : TmsCheckResponse.t :=
  {| TmsCheckResponse.ID := 0;
     TmsCheckResponse.Name := "";
     TmsCheckResponse.Steps := None;
     TmsCheckResponse.Active := false;
     TmsCheckResponse.ContactIds := None;
     TmsCheckResponse.CustomMessage := "";
     TmsCheckResponse.IntegrationIds := None;
     TmsCheckResponse.Interval := 0;
     TmsCheckResponse.Region := "";
     TmsCheckResponse.SendNotificationWhenDown := 0;
     TmsCheckResponse.SeverityLevel := "";
     TmsCheckResponse.Tags := tags;
     TmsCheckResponse.TeamIds := None |}.

Open Scope list_scope.

(** An encoding as [DecodeRune] accepts it at the head of any string. *)
Definition rune (e : list ascii) : Prop :=
  e <> [] /\ forall x, Utf8.DecodeRune (e ++ x) = Some (length e).

(** The space runes as [TrimRightSpace] meets them, read backwards. *)
Definition rev_runes : list (list ascii) := List.map (@rev ascii) Strings.space_runes.

(** A string made of members of [rs], one after the other. *)
Inductive runs (rs : list (list ascii)) : list ascii -> Prop :=
| runs_nil : runs rs []
| runs_cons (e l : list ascii) : In e rs -> runs rs l -> runs rs (e ++ l).

(** Nothing for [TrimSpace] to cut at either end. *)
Definition untrimmable (l : list ascii) : Prop :=
  Strings.strip_one Strings.space_runes l = None
  /\ Strings.strip_one rev_runes (rev l) = None.

(** The code points for which [unicode.IsSpace] holds. *)
Definition space_points : list N :=
  [ 9; 10; 11; 12; 13; 32; 133; 160; 5760; 8192; 8193; 8194; 8195; 8196; 8197;
    8198; 8199; 8200; 8201; 8202; 8232; 8233; 8239; 8287; 12288 ]%N.

(** A string of white space: the encodings of code points for which
    [unicode.IsSpace] holds, one after the other. *)
Inductive space_run : list ascii -> Prop :=
| space_run_nil : space_run []
| space_run_cons (cp : N) (l : list ascii) :
    Utf8.IsSpace cp = true -> space_run l ->
    space_run (Utf8.EncodeRune cp ++ l).

Definition starts_with_space (l : list ascii) : Prop :=
  exists cp y, Utf8.IsSpace cp = true /\ l = Utf8.EncodeRune cp ++ y.

Definition ends_with_space (l : list ascii) : Prop :=
  exists cp y, Utf8.IsSpace cp = true /\ l = y ++ Utf8.EncodeRune cp.

(** [t] is [s] without the white space around it. *)
Definition trimmed_form (s t : string) : Prop :=
  (exists p q,
     list_ascii_of_string s = p ++ list_ascii_of_string t ++ q
     /\ space_run p /\ space_run q)
  /\ ~ starts_with_space (list_ascii_of_string t)
  /\ ~ ends_with_space (list_ascii_of_string t).

(** A function over the elements of a slice; a nil slice stays nil. *)
Definition slice_map {A B : Type} (g : A -> B) (l : slice A) : slice B :=
  match l with
  | None => None
  | Some xs => Some (List.map g xs)
  end.

(** The argument map a reader gets back from the written one. *)
Definition echoed_args (m : gmap string string) : gmap string string :=
  (fun kv : string * string => Utf8.ToValidUTF8 kv.2) <$> written_entries m.

(** The step a reader gets back from the written one: the strings in their
    written form, and a nil argument map where none was written. *)
Definition echoed_step (s : TmsStep) : TmsStep :=
  {| Function := Utf8.ToValidUTF8 (Function s);
     Args := match Args s with
             | None => None
             | Some m => if decide (m = ∅) then None else Some (echoed_args m)
             end |}.

(** A step that comes back as it was sent: its strings are valid UTF-8 and
    its argument map is nil or holds an entry. *)
Definition step_survives (s : TmsStep) : Prop :=
  Utf8.ValidString (Function s) = true
  /\ match Args s with
     | None => True
     | Some m =>
         m <> ∅
         /\ map_Forall (fun k v => Utf8.ValidString k = true
                                   /\ Utf8.ValidString v = true) m
     end.

(** The byte 0xFF, which no UTF-8 encoding holds, and U+FFFD as a string. *)
Definition byte_FF : string := String (Ascii.ascii_of_nat 255) EmptyString.

Definition U_FFFD : string := string_of_list_ascii Utf8.replacement.

(** A check that does not come back as it was sent: its name ends in a
    byte that is no UTF-8, and its one step has an empty argument map that
    is not nil. *)
Definition mangled_check : TmsCheck :=
  {| ID := 0; Name := String.append "caf" byte_FF;
     Steps := Some [ {| Function := "click"; Args := Some ∅ |} ];
     Active := true; ContactIds := None; CustomMessage := "";
     IntegrationIds := None; Interval := 10; Region := "eu";
     SendNotificationWhenDown := 1; SeverityLevel := "low"; Tags := "";
     TeamIds := None |}.

(** A check with one step with an argument and the tags of the round-trip
    example. *)
Definition sample_check : TmsCheck :=
  {| ID := 0; Name := "home";
     Steps := Some [ {| Function := "go_to";
                        Args := Some {[ "url" := "https://example.org" ]} |} ];
     Active := true; ContactIds := None; CustomMessage := "";
     IntegrationIds := None; Interval := 10; Region := "eu";
     SendNotificationWhenDown := 1; SeverityLevel := "low"; Tags := "a, b,c";
     TeamIds := None |}.

(** The values the rules of a check allow. *)
Definition allowed_region (r : string) : Prop :=
  r = "us-east" \/ r = "us-west" \/ r = "eu" \/ r = "au".

Definition allowed_severity (v : string) : Prop :=
  v = "high" \/ v = "low".

Definition allowed_interval (n : Z) : Prop :=
  n = 5 \/ n = 10 \/ n = 20 \/ n = 60 \/ n = 720 \/ n = 1440.

(** The ways a report request breaks a rule. *)
Definition range_reversed (q : report_request) : Prop :=
  exists f u, request_From q = Some f /\ request_To q = Some u /\ Before u f = true.

Definition offset_negative (q : report_request) : Prop :=
  exists o, request_Offset q = Some o /\ o < 0.

Definition limit_not_positive (q : report_request) : Prop :=
  exists l, request_Limit q = Some l /\ l <= 0.

Definition order_unknown (q : report_request) : Prop :=
  request_Order q <> ASC /\ request_Order q <> DESC /\ request_Order q <> "".

Definition resolution_unknown (q : report_request) : Prop :=
  request_Resolution q <> HOUR /\ request_Resolution q <> DAY
  /\ request_Resolution q <> WEEK /\ request_Resolution q <> "".

(** The keys a parameter mapping may hold. *)
Definition param_keys : list string :=
  [ "from"; "to"; "offset"; "limit"; "order"; "resolution"; "omit_empty";
    "include_uptime" ].

(** *** The operations as one family *)

(** A call of one of the eight operations, with its arguments. *)
Inductive operation : Type :=
| OpList (params : list (gmap string string))
| OpCreate (check : TmsCheck)
| OpRead (id : Z)
| OpUpdate (id : Z) (check : TmsCheck)
| OpDelete (id : Z)
| OpStatusReportList (request : TmsStatusReportListRequest.t)
| OpStatusReportById (id : Z) (request : TmsStatusReportListByIdRequest.t)
| OpPerformanceReport (id : Z) (request : TmsPerformanceReportRequest.t).

(** The validation an operation runs before anything else; List, Read and
    Delete run none. *)
Definition operation_Valid (op : operation) : option ValidationError :=
  match op with
  | OpCreate check | OpUpdate _ check => TmsCheck_Valid check
  | OpStatusReportList request => TmsStatusReportListRequest.Valid request
  | OpStatusReportById _ request => TmsStatusReportListByIdRequest.Valid request
  | OpPerformanceReport _ request => TmsPerformanceReportRequest.Valid request
  | OpList _ | OpRead _ | OpDelete _ => None
  end.

(** The operations that hand the envelope of a single check to
    [fromTmsCheckResponse]. *)
Definition reads_check (op : operation) : bool :=
  match op with
  | OpCreate _ | OpRead _ | OpUpdate _ _ => true
  | _ => false
  end.

Definition outcome_map {E A B : Type} (f : A -> B) (o : outcome E A) : outcome E B :=
  match o with
  | Returned a => Returned (f a)
  | Failed e => Failed e
  | Panicked => Panicked
  end.

Section Family.

Context `{Client}.
Variable formatRFC3339 : Time -> string.

(** What an operation returns, tagged by its type. *)
Inductive result : Type :=
| GotChecks (l : list TmsCheck)
| GotCheck (c : TmsCheck)
| GotAck (r : PingdomResponse)
| GotStatusChange (r : TmsStatusChangeResponse)
| GotPerformance (r : TmsPerformanceReportResponse).

Definition tagged {A : Type} (f : A -> result) (p : prog (outcome error A))
    : prog (outcome error result) :=
  bind p (fun o => Ret (outcome_map f o)).

(** The operation a call stands for. *)
Definition perform_operation (op : operation) : prog (outcome error result) :=
  match op with
  | OpList params => tagged GotChecks (List params)
  | OpCreate check => tagged GotCheck (Create check)
  | OpRead id => tagged GotCheck (Read id)
  | OpUpdate id check => tagged GotCheck (Update id check)
  | OpDelete id => tagged GotAck (Delete id)
  | OpStatusReportList request =>
      tagged GotStatusChange (StatusReportList formatRFC3339 request)
  | OpStatusReportById id request =>
      tagged GotStatusChange (StatusReportById formatRFC3339 id request)
  | OpPerformanceReport id request =>
      tagged GotPerformance (PerformanceReport formatRFC3339 id request)
  end.

(** The request of each operation as the table of the consumed HTTP surface
    gives it: method, path, and the query parameters or the JSON body. *)
Definition table_request (op : operation) : call (res Request) :=
  match op with
  | OpList params =>
      NewRequest "GET" "/tms/check" (match params with [p] => p | _ => ∅ end)
  | OpCreate check =>
      NewJSONRequest "POST" "/tms/check" (RenderForJSONAPI check)
  | OpRead id =>
      NewRequest "GET" (String.append "/tms/check/" (Itoa id)) ∅
  | OpUpdate id check =>
      NewJSONRequest "PUT" (String.append "/tms/check/" (Itoa id))
        (RenderForJSONAPI check)
  | OpDelete id =>
      NewRequest "DELETE" (String.append "/tms/check/" (Itoa id)) ∅
  | OpStatusReportList request =>
      NewRequest "GET" "/tms/check/report/status"
        (TmsStatusReportListRequest.GetParams formatRFC3339 request)
  | OpStatusReportById id request =>
      NewRequest "GET"
        (String.append "/tms/check/" (String.append (Itoa id) "/report/status"))
        (TmsStatusReportListByIdRequest.GetParams formatRFC3339 request)
  | OpPerformanceReport id request =>
      NewRequest "GET"
        (String.append "/tms/check/" (String.append (Itoa id) "/report/performance"))
        (TmsPerformanceReportRequest.GetParams formatRFC3339 request)
  end.

(** Calls by kind: the ones that build a request, the ones that send one,
    and the close of a response body. *)
Definition is_build (l : logged) : bool :=
  match l with
  | Logged (NewRequest _ _ _) | Logged (NewJSONRequest _ _ _) => true
  | _ => false
  end.

Definition is_issue (l : logged) : bool :=
  match l with
  | Logged (Do _ _) | Logged (HttpDo _) => true
  | _ => false
  end.

Definition is_close (l : logged) : bool :=
  match l with
  | Logged (CloseBody _) => true
  | _ => false
  end.

Definition is_read (l : logged) : bool :=
  match l with
  | Logged (ReadAll _) => true
  | _ => false
  end.

Definition count (f : logged -> bool) (log : list logged) : nat :=
  length (List.filter f log).

(** The one call by which an operation sends its request [req]: List on the
    raw transport, the others through [client.Do] into the struct of their
    response. *)
Definition sent (op : operation) (req : Request) : logged :=
  match op with
  | OpList _ => Logged (HttpDo req)
  | OpCreate _ | OpRead _ | OpUpdate _ _ => Logged (Do req IntoCheckDetails)
  | OpDelete _ => Logged (Do req IntoPingdomResponse)
  | OpStatusReportList _ | OpStatusReportById _ _ => Logged (Do req IntoStatusChange)
  | OpPerformanceReport _ _ => Logged (Do req IntoPerformanceReport)
  end.

(** The collaborator [h] answers that call, in the state [w1], with the
    error [e], and is left in the state [w2]. *)
Definition send_fails {W : Type} (h : forall X, call X -> W -> X * W)
    (op : operation) (req : Request) (w1 : W) (e : ClientError) (w2 : W) : Prop :=
  match op with
  | OpList _ => h _ (HttpDo req) w1 = (Err e, w2)
  | OpCreate _ | OpRead _ | OpUpdate _ _ =>
      h _ (Do req IntoCheckDetails) w1 = (Err e, w2)
  | OpDelete _ => h _ (Do req IntoPingdomResponse) w1 = (Err e, w2)
  | OpStatusReportList _ | OpStatusReportById _ _ =>
      h _ (Do req IntoStatusChange) w1 = (Err e, w2)
  | OpPerformanceReport _ _ => h _ (Do req IntoPerformanceReport) w1 = (Err e, w2)
  end.

End Family.

Arguments GotChecks {_} l.
Arguments GotCheck {_} c.
Arguments GotAck {_} r.
Arguments GotStatusChange {_} r.
Arguments GotPerformance {_} r.

(** The stub with scripted failures: [build] is the error of building a
    request, [sent] the error of sending one, each [None] for success; a
    request sent with success is answered by an envelope without a check, and
    on the raw transport by the status [status] and the body [null]. *)
Definition scripted_answer (build sent : option Z) (status : Z)
    (X : Type) (c : @call stub X) (w : nat) : X * nat :=
  match c in call X0 return X0 * nat with
  | NewRequest _ _ _ | NewJSONRequest _ _ _ =>
      (match build with Some e => @Err stub unit e | None => @Ok stub unit tt end, w)
  | Do _ t =>
      (match sent with
       | Some e => @Err stub (@into stub t) e
       | None =>
           @Ok stub (@into stub t)
             match t return @into stub t with
             | IntoCheckDetails => {| tmsCheckDetailsJSONResponse.TmsCheck := None |}
             | IntoPingdomResponse => tt
             | IntoStatusChange => tt
             | IntoPerformanceReport => tt
             end
       end, S w)
  | HttpDo _ =>
      (match sent with Some e => @Err stub Z e | None => @Ok stub Z status end, S w)
  | ReadAll _ => ("null", w)
  | CloseBody _ => (tt, w)
  end.

(** A collaborator that echoes: a request is the body it carries, and the
    envelope of a check is the synthetic response to that body under the
    identifier 7. *)
Definition echo : Client :=
  {| Request := json;
     Response := Z;
     ClientError := Z;
     DecodeError := string;
     PingdomResponse := unit;
     TmsStatusChangeResponse := unit;
     TmsPerformanceReportResponse := unit;
     StatusCode := fun resp => resp;
     responseError := fun resp => resp;
     unmarshalList := fun body =>
       if String.eqb body "null" then SetNil
       else Filled {| listTmsChecksJSONResponse.TmsChecks := Some [] |} None |}.

Definition echo_answer (X : Type) (c : @call echo X) (w : nat) : X * nat :=
  match c in call X0 return X0 * nat with
  | NewRequest _ _ _ => (@Ok echo json JNull, w)
  | NewJSONRequest _ _ body => (@Ok echo json body, w)
  | Do req t =>
      (@Ok echo (@into echo t)
         match t return @into echo t with
         | IntoCheckDetails =>
             {| tmsCheckDetailsJSONResponse.TmsCheck := synthetic_response 7 req |}
         | IntoPingdomResponse => tt
         | IntoStatusChange => tt
         | IntoPerformanceReport => tt
         end, S w)
  | HttpDo _ => (@Ok echo Z 200, S w)
  | ReadAll _ => ("{}", w)
  | CloseBody _ => (tt, w)
  end.

(* ===================================================================== *)
(** ** Properties *)
(* ===================================================================== *)

Lemma sneq_false (a b : string) : sneq a b = false <-> a = b.
Proof.
  unfold sneq. rewrite negb_false_iff. apply String.eqb_eq.
Qed.

Lemma zneq_false (a b : Z) : zneq a b = false <-> a = b.
Proof.
  unfold zneq. rewrite negb_false_iff. apply Z.eqb_eq.
Qed.

Lemma seqb_false (a b : string) : String.eqb a b = false <-> a <> b.
Proof. apply String.eqb_neq. Qed.

Lemma order_allowed_spec (o : string) :
  order_allowed o = true <-> o = ASC \/ o = DESC \/ o = "".
Proof.
  unfold order_allowed. rewrite !orb_true_iff, !String.eqb_eq. tauto.
Qed.

Lemma resolution_allowed_spec (r : string) :
  resolution_allowed r = true <-> r = HOUR \/ r = DAY \/ r = WEEK \/ r = "".
Proof.
  unfold resolution_allowed. rewrite !orb_true_iff, !String.eqb_eq. tauto.
Qed.

(** The defaults of [NewTmsCheck] pass [Valid] under any non-empty name. *)
Lemma NewTmsCheck_Valid (name : string) (steps : slice TmsStep) :
  name <> "" -> TmsCheck_Valid (NewTmsCheck name steps) = None.
Proof.
  intros Hname. unfold TmsCheck_Valid. cbn.
  apply String.eqb_neq in Hname. rewrite Hname. reflexivity.
Qed.

(** C1. For every check, [Valid] returns no error exactly when the name is
    not empty, the region is one of us-east, us-west, eu, au, the severity
    level is one of high, low, and the interval is one of 5, 10, 20, 60, 720,
    1440. *)
Theorem TmsCheck_Valid_iff (ts : TmsCheck) :
  TmsCheck_Valid ts = None <->
  Name ts <> ""
  /\ (Region ts = "us-east" \/ Region ts = "us-west" \/ Region ts = "eu"
      \/ Region ts = "au")
  /\ (SeverityLevel ts = "high" \/ SeverityLevel ts = "low")
  /\ (Interval ts = 5 \/ Interval ts = 10 \/ Interval ts = 20 \/ Interval ts = 60
      \/ Interval ts = 720 \/ Interval ts = 1440).
Proof.
  unfold TmsCheck_Valid.
  destruct (String.eqb (Name ts) "") eqn:Hn.
  { apply String.eqb_eq in Hn. split; [discriminate | tauto]. }
  apply seqb_false in Hn.
  match goal with |- context [if ?b then Some (ErrRegion _) else _] =>
    destruct b eqn:Hr end.
  { split; [discriminate |]. intros (_ & Hreg & _). exfalso.
    rewrite !andb_true_iff in Hr. destruct Hr as [[[H1 H2] H3] H4].
    unfold sneq in *. rewrite negb_true_iff, String.eqb_neq in H1, H2, H3, H4.
    tauto. }
  rewrite !andb_false_iff, !sneq_false in Hr.
  match goal with |- context [if ?b then Some (ErrSeverityLevel _) else _] =>
    destruct b eqn:Hs end.
  { split; [discriminate |]. intros (_ & _ & Hsev & _). exfalso.
    rewrite !andb_true_iff in Hs. destruct Hs as [H1 H2].
    unfold sneq in *. rewrite negb_true_iff, String.eqb_neq in H1, H2.
    tauto. }
  rewrite !andb_false_iff, !sneq_false in Hs.
  match goal with |- context [if ?b then Some (ErrInterval _) else _] =>
    destruct b eqn:Hi end.
  { split; [discriminate |]. intros (_ & _ & _ & Hint). exfalso.
    rewrite !andb_true_iff in Hi. unfold zneq in Hi.
    rewrite !negb_true_iff, !Z.eqb_neq in Hi. lia. }
  rewrite !andb_false_iff, !zneq_false in Hi.
  split; [intros _ | reflexivity]. tauto.
Qed.

(** C6, the claim as stated fails: a performance report request whose
    Resolution is the empty string, which is none of hour, day, week, passes
    [Valid]. *)
Lemma PerformanceReportRequest_empty_Resolution_passes :
  let tr := {| TmsPerformanceReportRequest.From := None;
               TmsPerformanceReportRequest.To := None;
               TmsPerformanceReportRequest.Order := "";
               TmsPerformanceReportRequest.IncludeUptime := false;
               TmsPerformanceReportRequest.Resolution := "" |} in
  (TmsPerformanceReportRequest.Resolution tr <> HOUR
   /\ TmsPerformanceReportRequest.Resolution tr <> DAY
   /\ TmsPerformanceReportRequest.Resolution tr <> WEEK)
  /\ TmsPerformanceReportRequest.Valid tr = None.
Proof.
  cbn. repeat split; discriminate.
Qed.

(** C6, amended. For every performance report request, [Valid] fails when
    the Resolution is none of hour, day, week and the empty string, and when
    the Order is none of asc, desc and the empty string. *)
Theorem PerformanceReportRequest_Valid_rejects (tr : TmsPerformanceReportRequest.t) :
  (TmsPerformanceReportRequest.Resolution tr <> HOUR
   /\ TmsPerformanceReportRequest.Resolution tr <> DAY
   /\ TmsPerformanceReportRequest.Resolution tr <> WEEK
   /\ TmsPerformanceReportRequest.Resolution tr <> "")
  \/ (TmsPerformanceReportRequest.Order tr <> ASC
      /\ TmsPerformanceReportRequest.Order tr <> DESC
      /\ TmsPerformanceReportRequest.Order tr <> "") ->
  is_Some (TmsPerformanceReportRequest.Valid tr).
Proof.
  intros Hbad. unfold TmsPerformanceReportRequest.Valid.
  destruct (to_before_from _ _); [eauto |].
  destruct (order_allowed _) eqn:Ho; cbn; [| eauto].
  destruct (resolution_allowed _) eqn:Hr; [| eauto].
  apply order_allowed_spec in Ho. apply resolution_allowed_spec in Hr.
  exfalso. tauto.
Qed.

Lemma PerformanceReportRequest_Valid_rejects_witness :
  is_Some (TmsPerformanceReportRequest.Valid
             {| TmsPerformanceReportRequest.From := None;
                TmsPerformanceReportRequest.To := None;
                TmsPerformanceReportRequest.Order := "asc";
                TmsPerformanceReportRequest.IncludeUptime := true;
                TmsPerformanceReportRequest.Resolution := "month" |}).
Proof.
  apply PerformanceReportRequest_Valid_rejects.
  left. cbn. repeat split; discriminate.
Defined.

(** C8. For every report request of any of the three variants in which both
    From and To are set and every other field holds a valid value, [Valid]
    fails exactly when To is strictly before From. *)
Theorem report_request_Valid_fails_iff_To_before_From
    (q : report_request) (f u : Time) :
  request_From q = Some f ->
  request_To q = Some u ->
  other_fields_valid q ->
  (is_Some (request_Valid q) <-> Before u f = true).
Proof.
  intros Hf Hu (Ho & Hr & Hoff & Hlim).
  destruct q as [r | r | r]; cbn in *.
  - unfold TmsStatusReportListRequest.Valid. rewrite Hf, Hu, Ho. cbn.
    destruct (Before u f); [split; eauto |].
    assert (match TmsStatusReportListRequest.Offset r with
            | Some o => o <? 0 | None => false end = false) as ->.
    { destruct (TmsStatusReportListRequest.Offset r) as [o |]; [| reflexivity].
      apply Z.ltb_ge. auto. }
    assert (match TmsStatusReportListRequest.Limit r with
            | Some l => l <=? 0 | None => false end = false) as ->.
    { destruct (TmsStatusReportListRequest.Limit r) as [l |]; [| reflexivity].
      apply Z.leb_gt. auto. }
    split; [intros [e He]; discriminate | discriminate].
  - unfold TmsStatusReportListByIdRequest.Valid. rewrite Hf, Hu, Ho. cbn.
    destruct (Before u f); split; eauto; try discriminate.
    intros [e He]; discriminate.
  - unfold TmsPerformanceReportRequest.Valid. rewrite Hf, Hu, Ho, Hr. cbn.
    destruct (Before u f); split; eauto; try discriminate.
    intros [e He]; discriminate.
Qed.

Lemma report_request_Valid_fails_iff_To_before_From_witness :
  let f := {| unixSec := 1700000000; nanos := 5 |} in
  let u := {| unixSec := 1700000000; nanos := 4 |} in
  let q := ForAll {| TmsStatusReportListRequest.From := Some f;
                     TmsStatusReportListRequest.To := Some u;
                     TmsStatusReportListRequest.Order := "desc";
                     TmsStatusReportListRequest.Limit := Some 10;
                     TmsStatusReportListRequest.Offset := None;
                     TmsStatusReportListRequest.OmitEmpty := false |} in
  is_Some (request_Valid q) <-> Before u f = true.
Proof.
  cbv zeta.
  apply report_request_Valid_fails_iff_To_before_From; try reflexivity.
  repeat split; cbn; intros ? [=]; lia.
Defined.

(** C9. For every status report request for all checks whose other fields
    are valid, [Valid] fails whenever Limit is set to a value of at most 0 or
    Offset is set to a value below 0, and it succeeds when Limit is set to 1
    and Offset to 0. *)
Theorem StatusReportListRequest_Valid_pagination (tr : TmsStatusReportListRequest.t) :
  to_before_from (TmsStatusReportListRequest.From tr)
                 (TmsStatusReportListRequest.To tr) = false ->
  order_allowed (TmsStatusReportListRequest.Order tr) = true ->
  ((exists l, TmsStatusReportListRequest.Limit tr = Some l /\ l <= 0)
   \/ (exists o, TmsStatusReportListRequest.Offset tr = Some o /\ o < 0) ->
   is_Some (TmsStatusReportListRequest.Valid tr))
  /\ (TmsStatusReportListRequest.Limit tr = Some 1 ->
      TmsStatusReportListRequest.Offset tr = Some 0 ->
      TmsStatusReportListRequest.Valid tr = None).
Proof.
  intros Ht Ho. unfold TmsStatusReportListRequest.Valid. rewrite Ht, Ho. split.
  - intros [(l & Hl & Hle) | (o & Hoff & Hlt)].
    + rewrite Hl. apply Z.leb_le in Hle. rewrite Hle.
      destruct (TmsStatusReportListRequest.Offset tr) as [o |]; [| eauto].
      destruct (o <? 0); eauto.
    + rewrite Hoff. apply Z.ltb_lt in Hlt. rewrite Hlt. eauto.
  - intros -> ->. reflexivity.
Qed.

Lemma StatusReportListRequest_Valid_pagination_witness :
  TmsStatusReportListRequest.Valid
    {| TmsStatusReportListRequest.From := None;
       TmsStatusReportListRequest.To := Some {| unixSec := 0; nanos := 0 |};
       TmsStatusReportListRequest.Order := "";
       TmsStatusReportListRequest.Limit := Some 1;
       TmsStatusReportListRequest.Offset := Some 0;
       TmsStatusReportListRequest.OmitEmpty := true |} = None.
Proof.
  apply StatusReportListRequest_Valid_pagination; reflexivity.
Defined.

Lemma length_pos_nonempty {A : Type} (s : string) (x y : A) :
  (if (0 <? String.length s)%nat then x else y)
  = (if String.eqb s "" then y else x).
Proof. destruct s; reflexivity. Qed.

(** C7. For every report request of any of the three variants and every
    rendering of times, [GetParams] has a key for an optional field exactly
    when the field is set: from, to, offset and limit when the pointer is not
    nil, order and resolution when the string is not empty; and the flag keys
    omit_empty and include_uptime are present only when the flag is set, with
    the value "true". *)
Theorem report_request_GetParams_keys (format : Time -> string) (q : report_request) :
  let m := request_GetParams format q in
  m !! "from" = format <$> request_From q
  /\ m !! "to" = format <$> request_To q
  /\ m !! "offset" = Itoa <$> request_Offset q
  /\ m !! "limit" = Itoa <$> request_Limit q
  /\ m !! "order" = nonempty (request_Order q)
  /\ m !! "resolution" = nonempty (request_Resolution q)
  /\ m !! "omit_empty" = flag (request_OmitEmpty q)
  /\ m !! "include_uptime" = flag (request_IncludeUptime q).
Proof.
  destruct q as [r | r | r];
    unfold request_GetParams, TmsStatusReportListRequest.GetParams,
      TmsStatusReportListByIdRequest.GetParams,
      TmsPerformanceReportRequest.GetParams, nonempty, flag;
    rewrite ?length_pos_nonempty; destruct r; cbn;
    repeat match goal with
           | |- context [match ?o with Some _ => _ | None => _ end] => destruct o
           | |- context [if String.eqb ?s "" then _ else _] =>
               destruct (String.eqb s "")
           | |- context [if ?b then _ else _] => destruct b
           end;
    repeat split; simplify_map_eq; reflexivity.
Qed.

(** *** The split of a tag string *)

Lemma SplitComma_nonempty (s : string) : Strings.SplitComma s <> [].
Proof.
  destruct s as [| c r]; cbn; [discriminate |].
  destruct (Ascii.eqb c Strings.comma); [discriminate |].
  destruct (Strings.SplitComma r); discriminate.
Qed.

Lemma SplitComma_length (s : string) :
  length (Strings.SplitComma s) = S (Strings.CountComma s).
Proof.
  induction s as [| c r IH]; cbn; [reflexivity |].
  destruct (Ascii.eqb c Strings.comma); cbn; [congruence |].
  pose proof (SplitComma_nonempty r) as Hne.
  destruct (Strings.SplitComma r); [contradiction | exact IH].
Qed.

(** Joining the segments with commas gives the string back. *)
Lemma Join_SplitComma (s : string) :
  Strings.Join (Strings.SplitComma s) "," = s.
Proof.
  induction s as [| c r IH]; cbn; [reflexivity |].
  destruct (Ascii.eqb_spec c Strings.comma) as [-> | Hc].
  - pose proof (SplitComma_nonempty r) as Hne.
    destruct (Strings.SplitComma r) as [| x l]; [contradiction |].
    rewrite <- IH. reflexivity.
  - pose proof (SplitComma_nonempty r) as Hne.
    destruct (Strings.SplitComma r) as [| x l]; [contradiction |].
    change (Strings.cons_head c (x :: l)) with (String c x :: l).
    rewrite <- IH. destruct l; reflexivity.
Qed.

(** *** The operations against a collaborator *)

Section Operations.

Context `{Client}.
Context {W : Type}.
Variable h : forall X, call X -> W -> X * W.
Variable formatRFC3339 : Time -> string.

(** C3. Whatever the collaborator does, an operation given a value whose
    [Valid] fails returns that validation error, leaves the collaborator as
    it was and makes no call on it: no request is built and none is issued.
    This holds for Create, Update, StatusReportList, StatusReportById and
    PerformanceReport; in particular Create of a check whose Region is "mars"
    fails with a validation error and makes no call. *)
Theorem invalid_value_makes_no_call (w : W) :
  (forall check e, TmsCheck_Valid check = Some e ->
     run h (Create check) w = (Failed (Validation e), w, []))
  /\ (forall id check e, TmsCheck_Valid check = Some e ->
        run h (Update id check) w = (Failed (Validation e), w, []))
  /\ (forall request e, TmsStatusReportListRequest.Valid request = Some e ->
        run h (StatusReportList formatRFC3339 request) w
        = (Failed (Validation e), w, []))
  /\ (forall id request e, TmsStatusReportListByIdRequest.Valid request = Some e ->
        run h (StatusReportById formatRFC3339 id request) w
        = (Failed (Validation e), w, []))
  /\ (forall id request e, TmsPerformanceReportRequest.Valid request = Some e ->
        run h (PerformanceReport formatRFC3339 id request) w
        = (Failed (Validation e), w, []))
  /\ (forall check, Region check = "mars" ->
        exists e, run h (Create check) w = (Failed (Validation e), w, [])).
Proof.
  repeat apply conj.
  - intros check e He. unfold Create. rewrite He. reflexivity.
  - intros id check e He. unfold Update. rewrite He. reflexivity.
  - intros request e He. unfold StatusReportList. rewrite He. reflexivity.
  - intros id request e He. unfold StatusReportById. rewrite He. reflexivity.
  - intros id request e He. unfold PerformanceReport. rewrite He. reflexivity.
  - intros check Hmars.
    assert (exists e, TmsCheck_Valid check = Some e) as [e He].
    { unfold TmsCheck_Valid. rewrite Hmars.
      destruct (String.eqb (Name check) ""); cbn; eauto. }
    exists e. unfold Create. rewrite He. reflexivity.
Qed.

(** C4. When the transport answers the request of List with a response of
    2xx status whose body the decoder rejects, List returns the checks of
    whatever the decoder filled in, with a nil error: the decode error [derr]
    does not reach the caller, and with nothing filled in the list is
    empty. *)
Theorem List_swallows_decode_error
    (params : list (gmap string string)) (w w1 w2 w3 : W)
    (req : Request) (resp : Response) (body : string)
    (m : listTmsChecksJSONResponse.t) (derr : DecodeError) :
  h _ (NewRequest "GET" "/tms/check" (match params with [p] => p | _ => ∅ end)) w
    = (Ok req, w1) ->
  h _ (HttpDo req) w1 = (Ok resp, w2) ->
  200 <= StatusCode resp <= 299 ->
  h _ (ReadAll resp) w2 = (body, w3) ->
  unmarshalList body = Filled m (Some derr) ->
  (run h (List params) w).1.1
    = Returned (fromTmsCheckResponse <$> elems (listTmsChecksJSONResponse.TmsChecks m))
  /\ (listTmsChecksJSONResponse.TmsChecks m = None ->
      (run h (List params) w).1.1 = Returned []).
Proof.
  intros Hreq Hdo Hstatus Hread Hdecode.
  assert ((run h (List params) w).1.1
          = Returned (fromTmsCheckResponse
                        <$> elems (listTmsChecksJSONResponse.TmsChecks m))) as Hrun.
  { unfold List. cbn. rewrite Hreq. cbn. rewrite Hdo. cbn.
    unfold validateResponse.
    replace ((200 <=? StatusCode resp) && (StatusCode resp <=? 299)) with true
      by (symmetry; apply andb_true_iff; split; apply Z.leb_le; lia).
    cbn. rewrite Hread. rewrite Hdecode. cbn.
    destruct (h unit (CloseBody resp) w3) as [u w4]. reflexivity. }
  split; [exact Hrun |].
  intros Hnil. rewrite Hrun, Hnil. reflexivity.
Qed.

End Operations.

(** *** The operations against the stub *)

(** List against the stub: four calls, and the decode error of the body is
    nowhere in the result. *)
Example List_against_stub :
  run stub_answer (@List stub []) 0%nat
  = (Returned [], 1%nat,
     [ Logged (@NewRequest stub "GET" "/tms/check" ∅);
       Logged (@HttpDo stub tt);
       Logged (@ReadAll stub 200);
       Logged (@CloseBody stub 200) ]).
Proof. reflexivity. Qed.

(** Create of a valid check against the stub: the request is built with the
    rendered body and issued once. *)
Example Create_against_stub :
  run stub_answer (@Create stub (NewTmsCheck "home" None)) 0%nat
  = (Failed (@FromClient stub 500), 1%nat,
     [ Logged (@NewJSONRequest stub "POST" "/tms/check"
                 (RenderForJSONAPI (NewTmsCheck "home" None)));
       Logged (@Do stub tt IntoCheckDetails) ]).
Proof. reflexivity. Qed.

Lemma invalid_value_makes_no_call_witness :
  run stub_answer
      (@Create stub
         {| ID := 0; Name := "home"; Steps := None; Active := true;
            ContactIds := None; CustomMessage := ""; IntegrationIds := None;
            Interval := 10; Region := "mars"; SendNotificationWhenDown := 1;
            SeverityLevel := "high"; Tags := ""; TeamIds := None |}) 0%nat
  = (Failed (@Validation stub (ErrRegion "mars")), 0%nat, []).
Proof.
  apply (proj1 (invalid_value_makes_no_call stub_answer (fun _ => "") 0%nat)).
  reflexivity.
Defined.

Lemma List_swallows_decode_error_witness :
  (run stub_answer (@List stub []) 0%nat).1.1 = Returned [].
Proof.
  apply (List_swallows_decode_error (H := stub) stub_answer
           [] 0%nat 0%nat 1%nat 1%nat tt 200 "<html>"
           {| listTmsChecksJSONResponse.TmsChecks := None |} "<html>");
    try reflexivity.
  cbn. lia.
Defined.

(* ===================================================================== *)
(** ** Further properties of the tag projection *)
(* ===================================================================== *)

Open Scope list_scope.

Section Trim.

Variable rs : list (list ascii).
Hypothesis rs_nonempty : Forall (fun p => p <> []) rs.

Lemma strip_prefix_Some (p l l' : list ascii) :
  Strings.strip_prefix p l = Some l' -> l = p ++ l'.
Proof.
  revert l. induction p as [| a p IH]; intros l Hs; cbn in Hs.
  - injection Hs as ->. reflexivity.
  - destruct l as [| b l]; [discriminate |].
    destruct (Ascii.eqb_spec a b) as [-> | _]; [| discriminate].
    cbn. f_equal. apply IH. exact Hs.
Qed.

Lemma strip_prefix_app (p l : list ascii) :
  Strings.strip_prefix p (p ++ l) = Some l.
Proof.
  induction p as [| a p IH]; cbn; [reflexivity |].
  rewrite Ascii.eqb_refl. exact IH.
Qed.

Lemma strip_one_Some (l l' : list ascii) :
  Strings.strip_one rs l = Some l' -> exists p, In p rs /\ l = p ++ l'.
Proof using Type.
  clear rs_nonempty.
  induction rs as [| p rs' IH]; cbn; [discriminate |].
  destruct (Strings.strip_prefix p l) as [l0 |] eqn:E.
  - intros [= <-]. exists p. split; [now left | now apply strip_prefix_Some].
  - intros Hs. destruct (IH Hs) as (q & Hq & Hl). exists q. split; [now right | exact Hl].
Qed.

Lemma strip_one_None (l : list ascii) :
  Strings.strip_one rs l = None <->
  forall p, In p rs -> Strings.strip_prefix p l = None.
Proof using Type.
  clear rs_nonempty.
  induction rs as [| p rs' IH]; cbn.
  - split; [intros _ q [] | reflexivity].
  - destruct (Strings.strip_prefix p l) as [l0 |] eqn:E.
    + split; [discriminate |]. intros Hall.
      specialize (Hall p (or_introl eq_refl)). congruence.
    + rewrite IH. split.
      * intros Hall q [<- | Hq]; [exact E | now apply Hall].
      * intros Hall q Hq. apply Hall. now right.
Qed.

(** A string without a leading rune of [rs] has no prefix with one. *)
Lemma strip_one_None_prefix (q s : list ascii) :
  Strings.strip_one rs (q ++ s) = None -> Strings.strip_one rs q = None.
Proof using Type.
  intros Hn. destruct (Strings.strip_one rs q) as [q' |] eqn:E; [| reflexivity].
  destruct (strip_one_Some _ _ E) as (p & Hp & ->).
  pose proof (proj1 (strip_one_None _) Hn p Hp) as Hnone.
  rewrite <- List.app_assoc, strip_prefix_app in Hnone. discriminate.
Qed.

Lemma trim_left_suffix (n : nat) (l : list ascii) :
  exists p, l = p ++ Strings.trim_left rs n l.
Proof using Type.
  revert l. induction n as [| n IH]; intros l; cbn; [now exists [] |].
  destruct (Strings.strip_one rs l) as [l' |] eqn:E; [| now exists []].
  destruct (strip_one_Some _ _ E) as (p & _ & ->).
  destruct (IH l') as (q & Hq). exists (p ++ q).
  rewrite <- List.app_assoc. now rewrite <- Hq.
Qed.

Lemma trim_left_done (n : nat) (l : list ascii) :
  (length l <= n)%nat -> Strings.strip_one rs (Strings.trim_left rs n l) = None.
Proof using rs_nonempty.
  revert l. induction n as [| n IH]; intros l Hlen; cbn.
  - destruct l; [| cbn in Hlen; lia].
    apply strip_one_None. intros p Hp.
    destruct p as [| a p]; [| reflexivity].
    rewrite List.Forall_forall in rs_nonempty. now destruct (rs_nonempty [] Hp).
  - destruct (Strings.strip_one rs l) as [l' |] eqn:E; [| exact E].
    apply IH. destruct (strip_one_Some _ _ E) as (p & Hp & ->).
    rewrite List.Forall_forall in rs_nonempty.
    destruct p as [| a p]; [now destruct (rs_nonempty [] Hp) |].
    rewrite List.length_app in Hlen. cbn in Hlen. lia.
Qed.

Lemma trim_left_fixed (n : nat) (l : list ascii) :
  Strings.strip_one rs l = None -> Strings.trim_left rs n l = l.
Proof using Type.
  intros Hn. destruct n; cbn; [reflexivity |]. now rewrite Hn.
Qed.

End Trim.

Lemma space_runes_nonempty : Forall (fun p => p <> []) Strings.space_runes.
Proof. repeat constructor; discriminate. Qed.

Lemma rev_runes_nonempty : Forall (fun p => p <> []) rev_runes.
Proof. repeat constructor; discriminate. Qed.

Lemma TrimLeftSpace_spec (l : list ascii) :
  (exists p, l = p ++ Strings.TrimLeftSpace l)
  /\ Strings.strip_one Strings.space_runes (Strings.TrimLeftSpace l) = None.
Proof.
  unfold Strings.TrimLeftSpace. split.
  - apply trim_left_suffix.
  - apply trim_left_done; [apply space_runes_nonempty | lia].
Qed.

Lemma TrimRightSpace_spec (l : list ascii) :
  (exists s, l = Strings.TrimRightSpace l ++ s)
  /\ Strings.strip_one rev_runes (rev (Strings.TrimRightSpace l)) = None.
Proof.
  unfold Strings.TrimRightSpace. fold rev_runes. split.
  - destruct (trim_left_suffix rev_runes (length l) (rev l)) as (p & Hp).
    exists (rev p). rewrite <- List.rev_app_distr, <- Hp.
    symmetry. apply List.rev_involutive.
  - rewrite List.rev_involutive.
    apply trim_left_done; [apply rev_runes_nonempty |].
    rewrite List.length_rev. lia.
Qed.

(** What [TrimSpace] returns has nothing left to trim. *)
Lemma trim_bytes_fixed (l : list ascii) :
  Strings.TrimRightSpace
    (Strings.TrimLeftSpace (Strings.TrimRightSpace (Strings.TrimLeftSpace l)))
  = Strings.TrimRightSpace (Strings.TrimLeftSpace l).
Proof.
  destruct (TrimLeftSpace_spec l) as (_ & Hleft).
  destruct (TrimRightSpace_spec (Strings.TrimLeftSpace l)) as ((s & Hs) & Hright).
  set (b := Strings.TrimRightSpace (Strings.TrimLeftSpace l)) in *.
  assert (Strings.TrimLeftSpace b = b) as ->.
  { unfold Strings.TrimLeftSpace. apply trim_left_fixed.
    apply strip_one_None_prefix with (s := s). rewrite <- Hs. exact Hleft. }
  unfold Strings.TrimRightSpace at 1. fold rev_runes.
  rewrite trim_left_fixed by exact Hright.
  apply List.rev_involutive.
Qed.

Lemma TrimSpace_idempotent (s : string) :
  Strings.TrimSpace (Strings.TrimSpace s) = Strings.TrimSpace s.
Proof.
  unfold Strings.TrimSpace.
  rewrite list_ascii_of_string_of_list_ascii, trim_bytes_fixed. reflexivity.
Qed.

(** What [TrimSpace] returns is a piece of its argument. *)
Lemma TrimSpace_infix (s : string) :
  exists p q,
    list_ascii_of_string s = p ++ list_ascii_of_string (Strings.TrimSpace s) ++ q.
Proof.
  unfold Strings.TrimSpace. rewrite list_ascii_of_string_of_list_ascii.
  destruct (TrimLeftSpace_spec (list_ascii_of_string s)) as ((p & Hp) & _).
  destruct (TrimRightSpace_spec (Strings.TrimLeftSpace (list_ascii_of_string s)))
    as ((q & Hq) & _).
  exists p, q. rewrite <- Hq. exact Hp.
Qed.

Lemma comma_free_bytes (s : string) :
  comma_free s <->
  Forall (fun c => Ascii.eqb c Strings.comma = false) (list_ascii_of_string s).
Proof.
  unfold comma_free. induction s as [| c r IH]; cbn.
  - split; [constructor | reflexivity].
  - destruct (Ascii.eqb c Strings.comma) eqn:E.
    + split; [discriminate |]. intros Hall. inversion Hall. congruence.
    + rewrite IH. split; [now constructor |]. intros Hall. now inversion Hall.
Qed.

Lemma TrimSpace_comma_free (s : string) :
  comma_free s -> comma_free (Strings.TrimSpace s).
Proof.
  rewrite !comma_free_bytes. intros Hall.
  destruct (TrimSpace_infix s) as (p & q & Hs). rewrite Hs in Hall.
  apply List.Forall_app in Hall as (_ & Hall).
  apply List.Forall_app in Hall as (Hall & _). exact Hall.
Qed.

Lemma SplitComma_comma_free (s : string) :
  Forall comma_free (Strings.SplitComma s).
Proof.
  induction s as [| c r IH]; cbn.
  - repeat constructor.
  - destruct (Ascii.eqb c Strings.comma) eqn:E.
    + constructor; [reflexivity | exact IH].
    + destruct (Strings.SplitComma r) as [| x l]; cbn.
      * repeat constructor. unfold comma_free. cbn. now rewrite E.
      * inversion IH as [| ? ? Hx Hl]. constructor; [| exact Hl].
        unfold comma_free in *. cbn. now rewrite E.
Qed.

(** A string without a comma is its own single segment. *)
Lemma SplitComma_one (x : string) :
  comma_free x -> Strings.SplitComma x = [x].
Proof.
  unfold comma_free. induction x as [| c r IH]; cbn; [reflexivity |].
  destruct (Ascii.eqb c Strings.comma); [discriminate |].
  intros Hr. rewrite (IH Hr). reflexivity.
Qed.

Lemma SplitComma_segment (x rest : string) :
  comma_free x ->
  Strings.SplitComma (String.append x (String Strings.comma rest))
  = x :: Strings.SplitComma rest.
Proof.
  unfold comma_free. induction x as [| c r IH].
  - intros _. reflexivity.
  - change (String.append (String c r) (String Strings.comma rest))
      with (String c (String.append r (String Strings.comma rest))).
    cbn [Strings.CountComma Strings.SplitComma].
    destruct (Ascii.eqb c Strings.comma); [discriminate |].
    intros Hr. rewrite (IH Hr). reflexivity.
Qed.

(** Splitting what [Join] made of comma-free strings gives them back. *)
Lemma SplitComma_Join (l : list string) :
  l <> [] -> Forall comma_free l ->
  Strings.SplitComma (Strings.Join l ",") = l.
Proof.
  induction l as [| x l IH]; [contradiction |].
  intros _ Hall. inversion Hall as [| ? ? Hx Hl]. subst.
  destruct l as [| y l].
  - cbn. now apply SplitComma_one.
  - change (Strings.Join (x :: y :: l) ",")
      with (String.append x (String Strings.comma (Strings.Join (y :: l) ","))).
    rewrite SplitComma_segment by exact Hx.
    f_equal. apply IH; [discriminate | exact Hl].
Qed.

Lemma wire_tags_nonempty (s : string) : wire_tags s <> [].
Proof.
  unfold wire_tags. pose proof (SplitComma_nonempty s) as Hne.
  destruct (Strings.SplitComma s); [contradiction | discriminate].
Qed.

Lemma wire_tags_survive (s : string) :
  Forall (fun t => comma_free t /\ trimmed t) (wire_tags s).
Proof.
  unfold wire_tags. pose proof (SplitComma_comma_free s) as Hall.
  induction Hall as [| x l Hx Hl IH]; cbn; constructor; [| exact IH].
  split; [now apply TrimSpace_comma_free | apply TrimSpace_idempotent].
Qed.

(** Tags that survive the wire come back from their comma-joined form. *)
Lemma wire_tags_Join (l : list string) :
  l <> [] -> Forall (fun t => comma_free t /\ trimmed t) l ->
  wire_tags (Strings.Join l ",") = l.
Proof.
  intros Hne Hall. unfold wire_tags.
  rewrite SplitComma_Join; [| exact Hne |].
  - induction Hall as [| x r [_ Hx] Hr IH]; cbn; [reflexivity |].
    rewrite Hx. f_equal.
    destruct r as [| y r]; [reflexivity |]. apply IH. discriminate.
  - eapply List.Forall_impl; [| exact Hall]. intros t [Ht _]. exact Ht.
Qed.

Lemma CountComma_append (a b : string) :
  Strings.CountComma (String.append a b)
  = (Strings.CountComma a + Strings.CountComma b)%nat.
Proof.
  induction a as [| c r IH]; [reflexivity |].
  change (String.append (String c r) b) with (String c (String.append r b)).
  cbn [Strings.CountComma]. rewrite IH.
  destruct (Ascii.eqb c Strings.comma); lia.
Qed.

Lemma CountComma_Join (x : string) (l : list string) :
  Strings.CountComma (Strings.Join (x :: l) ",")
  = (commas (x :: l) + length l)%nat.
Proof.
  revert x. induction l as [| y l IH]; intros x.
  - unfold commas. cbn. lia.
  - change (Strings.Join (x :: y :: l) ",")
      with (String.append x (String.append "," (Strings.Join (y :: l) ","))).
    rewrite !CountComma_append, IH.
    change (Strings.CountComma ",") with 1%nat. unfold commas. cbn. lia.
Qed.

(* ===================================================================== *)
(** ** Properties of the written form of a string *)
(* ===================================================================== *)

Lemma lead_spec (c : ascii) (sz : nat) (lo hi : N) :
  Utf8.lead c = Some (sz, lo, hi) ->
  (128 <= lo)%N /\ (hi <= 191)%N /\ (sz = 2 \/ sz = 3 \/ sz = 4)%nat
  /\ (194 <= Utf8.code c)%N.
Proof.
  unfold Utf8.lead. cbv zeta.
  destruct (N.ltb_spec (Utf8.code c) 194) as [| Hge]; [discriminate |].
  repeat match goal with
         | |- context [if ?b then _ else _] => destruct b
         end;
    try discriminate; intros [= <- <- <-]; repeat split; try lia; auto.
Qed.

Lemma between_continuation (lo hi : N) (c : ascii) :
  (128 <= lo)%N -> (hi <= 191)%N ->
  Utf8.between lo hi c = true -> Utf8.continuation c = true.
Proof.
  unfold Utf8.continuation, Utf8.between. intros Hlo Hhi Hb.
  apply andb_true_iff in Hb as [H1 H2].
  apply N.leb_le in H1, H2. apply andb_true_iff. split; apply N.leb_le; lia.
Qed.

Lemma not_continuation (c : ascii) :
  (Utf8.code c < 128)%N \/ (194 <= Utf8.code c)%N -> Utf8.continuation c = false.
Proof.
  unfold Utf8.continuation, Utf8.between. intros Hc.
  apply andb_false_iff. destruct Hc; [left; apply N.leb_gt | right; apply N.leb_gt]; lia.
Qed.

(** What [DecodeRune] accepts: a lead byte that is no continuation byte,
    followed by continuation bytes, and accepted whatever comes after. *)
Lemma DecodeRune_Some (l : list ascii) (k : nat) :
  Utf8.DecodeRune l = Some k ->
  exists s0 t r,
    l = (s0 :: t) ++ r /\ length (s0 :: t) = k
    /\ Utf8.continuation s0 = false
    /\ Forall (fun c => Utf8.continuation c = true) t
    /\ rune (s0 :: t).
Proof.
  destruct l as [| s0 r]; [discriminate |]. cbn [Utf8.DecodeRune].
  destruct (N.ltb_spec (Utf8.code s0) 128) as [Hlt | Hge].
  - intros [= <-]. exists s0, [], r.
    split; [reflexivity |]. split; [reflexivity |].
    split; [apply not_continuation; now left |].
    split; [constructor |]. split; [discriminate |].
    intros x. cbn. apply N.ltb_lt in Hlt. now rewrite Hlt.
  - destruct (Utf8.lead s0) as [[[sz lo] hi] |] eqn:Hlead; [| discriminate].
    destruct (lead_spec _ _ _ _ Hlead) as (Hlo & Hhi & Hsz & Hcode).
    destruct (Utf8.tail_ok sz lo hi r) eqn:Htail; [| discriminate].
    intros [= <-].
    assert (Utf8.continuation s0 = false) as Hs0
        by (apply not_continuation; now right).
    assert ((Utf8.code s0 <? 128)%N = false) as Hasc by (apply N.ltb_ge; lia).
    destruct Hsz as [-> | [-> | ->]]; cbn in Htail.
    + destruct r as [| s1 r]; [discriminate |].
      exists s0, [s1], r.
      split; [reflexivity |]. split; [reflexivity |]. split; [exact Hs0 |].
      split; [repeat constructor; eapply between_continuation; eauto |].
      split; [discriminate |].
      intros x. cbn [app length Utf8.DecodeRune]. rewrite Hasc, Hlead.
      cbn [Utf8.tail_ok]. now rewrite Htail.
    + destruct r as [| s1 [| s2 r]]; try discriminate.
      apply andb_true_iff in Htail as [H1 H2].
      exists s0, [s1; s2], r.
      split; [reflexivity |]. split; [reflexivity |]. split; [exact Hs0 |].
      split; [repeat constructor; auto; eapply between_continuation; eauto |].
      split; [discriminate |].
      intros x. cbn [app length Utf8.DecodeRune]. rewrite Hasc, Hlead.
      cbn [Utf8.tail_ok]. now rewrite H1, H2.
    + destruct r as [| s1 [| s2 [| s3 r]]]; try discriminate.
      apply andb_true_iff in Htail as [H12 H3].
      apply andb_true_iff in H12 as [H1 H2].
      exists s0, [s1; s2; s3], r.
      split; [reflexivity |]. split; [reflexivity |]. split; [exact Hs0 |].
      split; [repeat constructor; auto; eapply between_continuation; eauto |].
      split; [discriminate |].
      intros x. cbn [app length Utf8.DecodeRune]. rewrite Hasc, Hlead.
      cbn [Utf8.tail_ok]. now rewrite H1, H2, H3.
Qed.

Lemma DecodeRune_split (l : list ascii) (k : nat) :
  Utf8.DecodeRune l = Some k ->
  exists e r, l = e ++ r /\ length e = k /\ List.firstn k l = e
              /\ List.skipn k l = r /\ rune e /\ (1 <= k)%nat.
Proof.
  intros Hd. destruct (DecodeRune_Some _ _ Hd) as (s0 & t & r & -> & Hk & _ & _ & Hr).
  exists (s0 :: t), r.
  split; [reflexivity |]. split; [exact Hk |].
  split; [| split; [| split; [exact Hr | rewrite <- Hk; cbn; lia]]].
  - rewrite <- Hk. apply take_app_length.
  - rewrite <- Hk. apply drop_app_length.
Qed.

Lemma replacement_rune : rune Utf8.replacement.
Proof. split; [discriminate | intros x; reflexivity]. Qed.

Lemma to_valid_fuel (n m : nat) (l : list ascii) :
  (length l <= n)%nat -> (length l <= m)%nat ->
  Utf8.to_valid n l = Utf8.to_valid m l.
Proof.
  revert m l. induction n as [| n IH]; intros m l Hn Hm.
  - destruct l; [| cbn in Hn; lia]. destruct m; reflexivity.
  - destruct m as [| m]; [destruct l; [reflexivity | cbn in Hm; lia] |].
    destruct l as [| s0 r]; [reflexivity |].
    cbn [Utf8.to_valid]. cbn [length] in Hn, Hm.
    destruct (Utf8.DecodeRune (s0 :: r)) as [k |] eqn:Hd.
    + f_equal. destruct (DecodeRune_split _ _ Hd) as (e & r' & Hl & Hk & _ & Hs & _ & H1).
      rewrite Hs. assert (length (s0 :: r) = (k + length r')%nat) as Hlen
          by (rewrite Hl, List.length_app; lia).
      cbn [length] in Hlen. apply IH; lia.
    + f_equal. apply IH; lia.
Qed.

Lemma ToValid_rune (e r : list ascii) :
  rune e -> Utf8.ToValid (e ++ r) = e ++ Utf8.ToValid r.
Proof.
  intros [Hne Hr]. unfold Utf8.ToValid.
  destruct (e ++ r) as [| s0 l] eqn:El.
  { destruct e; [contradiction | discriminate]. }
  cbn [length Utf8.to_valid]. rewrite <- El, Hr.
  rewrite take_app_length, drop_app_length. f_equal.
  apply to_valid_fuel; [| lia].
  apply (f_equal (@length ascii)) in El. rewrite List.length_app in El.
  cbn [length] in El. destruct e; [contradiction | cbn [length] in El; lia].
Qed.

Lemma ToValid_bad (s0 : ascii) (r : list ascii) :
  Utf8.DecodeRune (s0 :: r) = None ->
  Utf8.ToValid (s0 :: r) = Utf8.replacement ++ Utf8.ToValid r.
Proof.
  intros Hd. unfold Utf8.ToValid. cbn [length Utf8.to_valid]. now rewrite Hd.
Qed.

(** Induction along the encodings and the stray bytes of a string. *)
Lemma ToValid_ind (P : list ascii -> Prop) :
  P [] ->
  (forall e r, rune e -> P r -> P (e ++ r)) ->
  (forall s0 r, Utf8.DecodeRune (s0 :: r) = None -> P r -> P (s0 :: r)) ->
  forall l, P l.
Proof.
  intros Hnil Hrune Hbad l.
  remember (length l) as n eqn:Hn. revert l Hn.
  induction n as [n IH] using lt_wf_ind. intros l Hn.
  destruct l as [| s0 r]; [exact Hnil |].
  destruct (Utf8.DecodeRune (s0 :: r)) as [k |] eqn:Hd.
  - destruct (DecodeRune_split _ _ Hd) as (e & r' & Hl & Hk & _ & _ & Hr & H1).
    rewrite Hl. apply Hrune; [exact Hr |].
    apply (IH (length r')); [| reflexivity].
    rewrite Hn, Hl, List.length_app. lia.
  - apply Hbad; [exact Hd |]. apply (IH (length r)); [| reflexivity].
    rewrite Hn. cbn. lia.
Qed.


Lemma ToValid_Forall (Q : ascii -> Prop) (l : list ascii) :
  Forall Q Utf8.replacement -> Forall Q l -> Forall Q (Utf8.ToValid l).
Proof.
  intros Hrep.
  induction l as [| e r He IH | s0 r Hd IH] using ToValid_ind; intros Hall.
  - constructor.
  - rewrite ToValid_rune by exact He. apply List.Forall_app in Hall as [H1 H2].
    apply List.Forall_app. split; [exact H1 | now apply IH].
  - rewrite ToValid_bad by exact Hd. inversion Hall; subst.
    apply List.Forall_app. split; [exact Hrep | now apply IH].
Qed.

Lemma ToValid_length (l : list ascii) : (length l <= length (Utf8.ToValid l))%nat.
Proof.
  induction l as [| e r He IH | s0 r Hd IH] using ToValid_ind.
  - reflexivity.
  - rewrite ToValid_rune by exact He. rewrite !List.length_app. lia.
  - rewrite ToValid_bad by exact Hd. rewrite List.length_app. cbn. lia.
Qed.

Lemma valid_fixed (n : nat) (l : list ascii) :
  Utf8.valid n l = true -> Utf8.ToValid l = l.
Proof.
  revert l. induction n as [| n IH]; intros l Hv.
  - destruct l; [reflexivity | discriminate].
  - destruct l as [| s0 r]; [reflexivity |]. cbn [Utf8.valid] in Hv.
    destruct (Utf8.DecodeRune (s0 :: r)) as [k |] eqn:Hd; [| discriminate].
    destruct (DecodeRune_split _ _ Hd) as (e & r' & Hl & _ & _ & Hs & Hr & _).
    rewrite Hs in Hv. rewrite Hl, ToValid_rune by exact Hr.
    now rewrite (IH _ Hv).
Qed.

(** A string of valid UTF-8 is written as it is. *)
Lemma ValidString_fixed (s : string) :
  Utf8.ValidString s = true -> Utf8.ToValidUTF8 s = s.
Proof.
  unfold Utf8.ValidString, Utf8.ToValidUTF8. intros Hv.
  rewrite (valid_fixed _ _ Hv). apply string_of_list_ascii_of_string.
Qed.



Lemma rune_shape (e : list ascii) :
  rune e ->
  exists s0 t, e = s0 :: t /\ Utf8.continuation s0 = false
               /\ Forall (fun c => Utf8.continuation c = true) t.
Proof.
  intros [Hne Hr]. specialize (Hr []).
  destruct (DecodeRune_Some _ _ Hr) as (s0 & t & r & Hl & Hk & Hs0 & Ht & _).
  rewrite List.app_nil_r in Hl. exists s0, t.
  assert (r = []) as ->.
  { apply (f_equal (@length ascii)) in Hl. rewrite List.length_app, Hk in Hl.
    destruct r; [reflexivity | cbn in Hl; lia]. }
  rewrite List.app_nil_r in Hl. auto.
Qed.

(** Two encodings at the head of one string are the same encoding. *)
Lemma rune_unique (e1 e2 x1 x2 : list ascii) :
  rune e1 -> rune e2 -> e1 ++ x1 = e2 ++ x2 -> e1 = e2 /\ x1 = x2.
Proof.
  intros [_ H1] [_ H2] Heq.
  specialize (H1 x1). specialize (H2 x2). rewrite Heq, H2 in H1.
  injection H1 as Hlen. apply app_inj_1 in Heq; auto.
Qed.

(** An encoding at the end of a string that starts with an encoding is that
    encoding, or lies in what follows it. *)
Lemma rune_at_end (e' z y e : list ascii) :
  rune e' -> rune e -> e' ++ z = y ++ e ->
  (y = [] /\ e = e' /\ z = []) \/ (exists m, y = e' ++ m /\ z = m ++ e).
Proof.
  intros He' He Heq.
  apply List.app_eq_app in Heq as (m & [[Hy Hz] | [Hy Hz]]).
  - destruct y as [| a y].
    + left. cbn in Hy. subst m.
      destruct (rune_unique e e' [] z He He') as [-> Hnil];
        [now rewrite List.app_nil_r | auto].
    + destruct m as [| b m].
      * right. exists []. rewrite List.app_nil_r in Hy. cbn in Hz. subst.
        split; [now rewrite List.app_nil_r | reflexivity].
      * exfalso.
        destruct (rune_shape _ He') as (s0 & t & -> & _ & Ht).
        destruct (rune_shape _ He) as (c0 & u & -> & Hc0 & _).
        cbn in Hy. injection Hy as -> ->. cbn in Hz. injection Hz as <- _.
        apply List.Forall_app in Ht as [_ Ht]. inversion Ht; subst. congruence.
  - right. exists m. auto.
Qed.

Lemma ToValid_starts (e y l : list ascii) :
  rune e -> e <> Utf8.replacement -> Utf8.ToValid l = e ++ y ->
  exists y0, l = e ++ y0.
Proof.
  intros He Hrep Heq. destruct l as [| s0 r].
  - destruct He as [Hne _]. destruct e; [contradiction | discriminate].
  - destruct (Utf8.DecodeRune (s0 :: r)) as [k |] eqn:Hd.
    + destruct (DecodeRune_split _ _ Hd) as (e' & r' & Hl & _ & _ & _ & Hr & _).
      rewrite Hl in Heq |- *. rewrite ToValid_rune in Heq by exact Hr.
      destruct (rune_unique _ _ _ _ Hr He Heq) as [-> _]. eauto.
    + rewrite ToValid_bad in Heq by exact Hd.
      destruct (rune_unique _ _ _ _ replacement_rune He Heq) as [<- _].
      contradiction.
Qed.

Lemma ToValid_ends (e l : list ascii) :
  rune e -> e <> Utf8.replacement ->
  forall y, Utf8.ToValid l = y ++ e -> exists y0, l = y0 ++ e.
Proof.
  intros He Hrep.
  induction l as [| e' r He' IH | s0 r Hd IH] using ToValid_ind; intros y Heq.
  - destruct He as [Hne _]. destruct y, e; try contradiction; discriminate.
  - rewrite ToValid_rune in Heq by exact He'.
    destruct (rune_at_end _ _ _ _ He' He Heq) as [(-> & -> & Hnil) | (m & -> & Hm)].
    + exists []. pose proof (ToValid_length r) as Hlen. rewrite Hnil in Hlen.
      destruct r; [now rewrite List.app_nil_r | cbn in Hlen; lia].
    + destruct (IH _ Hm) as (y0 & ->). exists (e' ++ y0).
      now rewrite List.app_assoc.
  - rewrite ToValid_bad in Heq by exact Hd.
    destruct (rune_at_end _ _ _ _ replacement_rune He Heq)
      as [(_ & -> & _) | (m & -> & Hm)]; [contradiction |].
    destruct (IH _ Hm) as (y0 & ->). exists (s0 :: y0). reflexivity.
Qed.

Lemma space_runes_rune : Forall rune Strings.space_runes.
Proof.
  repeat constructor; try discriminate; intros x; reflexivity.
Qed.

Lemma space_runes_not_replacement :
  Forall (fun e => e <> Utf8.replacement) Strings.space_runes.
Proof. repeat constructor; discriminate. Qed.

Lemma strip_one_rev_runes (l l' : list ascii) :
  Strings.strip_one rev_runes (rev l) = Some l' ->
  exists e, In e Strings.space_runes /\ l = rev l' ++ e.
Proof.
  intros Hs. destruct (strip_one_Some _ _ _ Hs) as (p & Hp & Hl).
  unfold rev_runes in Hp. apply List.in_map_iff in Hp as (e & <- & He).
  exists e. split; [exact He |].
  apply (f_equal (@rev ascii)) in Hl.
  rewrite List.rev_involutive, List.rev_app_distr, List.rev_involutive in Hl.
  exact Hl.
Qed.

(** Writing a string leaves nothing new to trim. *)
Lemma untrimmable_ToValid (l : list ascii) :
  untrimmable l -> untrimmable (Utf8.ToValid l).
Proof.
  intros [Hfront Hback]. split.
  - destruct (Strings.strip_one Strings.space_runes (Utf8.ToValid l))
      as [l' |] eqn:E; [exfalso | reflexivity].
    destruct (strip_one_Some _ _ _ E) as (e & He & Hl).
    pose proof (proj1 (List.Forall_forall _ _) space_runes_rune e He) as Hr.
    pose proof (proj1 (List.Forall_forall _ _) space_runes_not_replacement e He)
      as Hn.
    destruct (ToValid_starts _ _ _ Hr Hn Hl) as (y0 & ->).
    pose proof (proj1 (strip_one_None _ _) Hfront e He) as Hnone.
    rewrite strip_prefix_app in Hnone. discriminate.
  - destruct (Strings.strip_one rev_runes (rev (Utf8.ToValid l)))
      as [l' |] eqn:E; [exfalso | reflexivity].
    destruct (strip_one_rev_runes _ _ E) as (e & He & Hl).
    pose proof (proj1 (List.Forall_forall _ _) space_runes_rune e He) as Hr.
    pose proof (proj1 (List.Forall_forall _ _) space_runes_not_replacement e He)
      as Hn.
    destruct (ToValid_ends _ _ Hr Hn _ Hl) as (y0 & ->).
    assert (In (rev e) rev_runes) as Hin by (now apply List.in_map).
    pose proof (proj1 (strip_one_None _ _) Hback (rev e) Hin) as Hnone.
    rewrite List.rev_app_distr, strip_prefix_app in Hnone. discriminate.
Qed.

Lemma trimmed_untrimmable (s : string) :
  trimmed s <-> untrimmable (list_ascii_of_string s).
Proof.
  unfold trimmed, untrimmable, Strings.TrimSpace. set (l := list_ascii_of_string s).
  split.
  - intros Ht. apply (f_equal list_ascii_of_string) in Ht.
    rewrite list_ascii_of_string_of_list_ascii in Ht. fold l in Ht.
    destruct (TrimLeftSpace_spec l) as ((p & Hp) & Hleft).
    destruct (TrimRightSpace_spec (Strings.TrimLeftSpace l)) as ((q & Hq) & Hright).
    rewrite Ht in Hq, Hright.
    assert (p = [] /\ q = []) as [-> ->].
    { pose proof (f_equal (@length ascii) Hp) as H1.
      rewrite Hq, !List.length_app in H1.
      destruct p, q; cbn in H1; try lia; auto. }
    rewrite List.app_nil_r in Hq. cbn in Hp. rewrite <- Hp in Hleft. auto.
  - intros [Hfront Hback].
    unfold Strings.TrimLeftSpace. rewrite trim_left_fixed by exact Hfront.
    unfold Strings.TrimRightSpace. fold rev_runes.
    rewrite trim_left_fixed by exact Hback.
    rewrite List.rev_involutive. apply string_of_list_ascii_of_string.
Qed.

Lemma ToValidUTF8_trimmed (s : string) :
  trimmed s -> trimmed (Utf8.ToValidUTF8 s).
Proof.
  rewrite !trimmed_untrimmable. unfold Utf8.ToValidUTF8.
  rewrite list_ascii_of_string_of_list_ascii. apply untrimmable_ToValid.
Qed.

Lemma ToValidUTF8_comma_free (s : string) :
  comma_free s -> comma_free (Utf8.ToValidUTF8 s).
Proof.
  rewrite !comma_free_bytes. unfold Utf8.ToValidUTF8.
  rewrite list_ascii_of_string_of_list_ascii. apply ToValid_Forall.
  repeat constructor.
Qed.

(** *** What [TrimSpace] cuts *)

Lemma IsSpace_points (cp : N) : Utf8.IsSpace cp = true <-> In cp space_points.
Proof.
  split.
  - unfold Utf8.IsSpace. rewrite !orb_true_iff, !andb_true_iff, !N.leb_le, !N.eqb_eq.
    unfold space_points. cbn [In]. lia.
  - unfold space_points. cbn [In]. intros Hin.
    repeat (destruct Hin as [<- | Hin]; [reflexivity |]). contradiction.
Qed.

(** The byte table of [TrimSpace] is the table of the encodings of the
    white-space code points. *)
Lemma space_runes_points :
  Strings.space_runes = List.map Utf8.EncodeRune space_points.
Proof. reflexivity. Qed.

Lemma space_runes_spec (p : list ascii) :
  In p Strings.space_runes <->
  exists cp, Utf8.IsSpace cp = true /\ p = Utf8.EncodeRune cp.
Proof.
  rewrite space_runes_points, List.in_map_iff. split.
  - intros (cp & <- & Hin). exists cp. split; [now apply IsSpace_points | reflexivity].
  - intros (cp & Hsp & ->). exists cp. split; [reflexivity | now apply IsSpace_points].
Qed.

Lemma runs_app (rs : list (list ascii)) (a b : list ascii) :
  runs rs a -> runs rs b -> runs rs (a ++ b).
Proof.
  induction 1 as [| e l He Hl IH]; intros Hb; [exact Hb |].
  rewrite <- List.app_assoc. constructor; auto.
Qed.

Lemma runs_rev (rs : list (list ascii)) (p : list ascii) :
  runs (List.map (@rev ascii) rs) p -> runs rs (rev p).
Proof.
  induction 1 as [| e l He Hl IH]; [constructor |].
  rewrite List.rev_app_distr. apply runs_app; [exact IH |].
  apply List.in_map_iff in He as (e0 & <- & He0).
  rewrite List.rev_involutive.
  rewrite <- (List.app_nil_r e0). constructor; [exact He0 | constructor].
Qed.

Lemma trim_left_runs (rs : list (list ascii)) (n : nat) (l : list ascii) :
  exists p, l = p ++ Strings.trim_left rs n l /\ runs rs p.
Proof.
  revert l. induction n as [| n IH]; intros l; cbn.
  - exists []. split; [reflexivity | constructor].
  - destruct (Strings.strip_one rs l) as [l' |] eqn:E.
    + destruct (strip_one_Some _ _ _ E) as (e & He & ->).
      destruct (IH l') as (q & Hq & Hruns). exists (e ++ q). split.
      * rewrite <- List.app_assoc. now rewrite <- Hq.
      * now constructor.
    + exists []. split; [reflexivity | constructor].
Qed.

Lemma runs_space_run (p : list ascii) : runs Strings.space_runes p -> space_run p.
Proof.
  induction 1 as [| e l He Hl IH]; [constructor |].
  apply space_runes_spec in He as (cp & Hsp & ->). now constructor.
Qed.

(** [TrimSpace] returns its argument without the white space around it:
    what it cuts at either end is white space, and what it returns neither
    starts nor ends with any. *)
Lemma TrimSpace_trimmed_form (s : string) : trimmed_form s (Strings.TrimSpace s).
Proof.
  unfold trimmed_form. split; [| split].
  - unfold Strings.TrimSpace. rewrite list_ascii_of_string_of_list_ascii.
    set (l := list_ascii_of_string s).
    destruct (trim_left_runs Strings.space_runes (length l) l) as (p & Hp & Hruns).
    fold (Strings.TrimLeftSpace l) in Hp.
    set (a := Strings.TrimLeftSpace l) in *.
    destruct (trim_left_runs rev_runes (length a) (rev a)) as (q & Hq & Hqruns).
    exists p, (rev q). split; [| split].
    + unfold Strings.TrimRightSpace. fold rev_runes.
      rewrite <- List.rev_app_distr, <- Hq, List.rev_involutive. exact Hp.
    + now apply runs_space_run.
    + apply runs_space_run. now apply runs_rev.
  - intros (cp & y & Hsp & Hl).
    pose proof (TrimSpace_idempotent s) as Hfix.
    apply trimmed_untrimmable in Hfix as [Hfront _].
    assert (In (Utf8.EncodeRune cp) Strings.space_runes) as Hin
        by (apply space_runes_spec; eauto).
    pose proof (proj1 (strip_one_None _ _) Hfront _ Hin) as Hnone.
    rewrite Hl, strip_prefix_app in Hnone. discriminate.
  - intros (cp & y & Hsp & Hl).
    pose proof (TrimSpace_idempotent s) as Hfix.
    apply trimmed_untrimmable in Hfix as [_ Hback].
    assert (In (rev (Utf8.EncodeRune cp)) rev_runes) as Hin.
    { apply List.in_map. apply space_runes_spec. eauto. }
    pose proof (proj1 (strip_one_None _ _) Hback _ Hin) as Hnone.
    rewrite Hl, List.rev_app_distr, strip_prefix_app in Hnone. discriminate.
Qed.

(* ===================================================================== *)
(** ** Properties of the rendered body *)
(* ===================================================================== *)

Lemma RenderForJSONAPI_members (ts : TmsCheck) :
  member "name" (RenderForJSONAPI ts) = Some (marshal_string (Name ts))
  /\ member "steps" (RenderForJSONAPI ts)
     = Some (marshal_slice marshal_step (Steps ts))
  /\ member "active" (RenderForJSONAPI ts) = Some (JBool (Active ts))
  /\ member "contact_ids" (RenderForJSONAPI ts)
     = Some (marshal_slice JNumber (ContactIds ts))
  /\ member "custom_message" (RenderForJSONAPI ts)
     = Some (marshal_string (CustomMessage ts))
  /\ member "integration_ids" (RenderForJSONAPI ts)
     = Some (marshal_slice JNumber (IntegrationIds ts))
  /\ member "interval" (RenderForJSONAPI ts) = Some (JNumber (Interval ts))
  /\ member "region" (RenderForJSONAPI ts) = Some (marshal_string (Region ts))
  /\ member "severity_level" (RenderForJSONAPI ts)
     = Some (marshal_string (SeverityLevel ts))
  /\ member "send_notification_when_down" (RenderForJSONAPI ts)
     = Some (JNumber (SendNotificationWhenDown ts))
  /\ member "tags" (RenderForJSONAPI ts)
     = Some (JArray (marshal_string <$> wire_tags (Tags ts)))
  /\ member "team_ids" (RenderForJSONAPI ts)
     = Some (marshal_slice JNumber (TeamIds ts)).
Proof.
  unfold RenderForJSONAPI, Marshal, member, wire_map.
  rewrite !lookup_fmap. repeat split; reflexivity.
Qed.

Lemma as_slice_marshal {A B : Type} (enc : A -> json) (dec : json -> option B)
    (g : A -> B) (l : slice A) :
  (forall x, dec (enc x) = Some (g x)) ->
  as_slice dec (marshal_slice enc l) = Some (slice_map g l).
Proof.
  intros Hdec. destruct l as [xs |]; cbn; [| reflexivity].
  assert (mapM dec (List.map enc xs) = Some (List.map g xs)) as ->; [| reflexivity].
  induction xs as [| x xs IH]; cbn; [reflexivity |].
  rewrite Hdec. cbn. rewrite IH. reflexivity.
Qed.

(** *** The entries of a written argument map *)



(** Where every Go key is valid UTF-8 no two entries are written under one
    key, and each is found under its own. *)
Lemma written_entries_valid_keys (m : gmap string string) (k : string) :
  (forall k0 v, m !! k0 = Some v -> Utf8.ToValidUTF8 k0 = k0) ->
  written_entries m !! k = pair k <$> m !! k.
Proof.
  intros Hkeys. unfold written_entries.
  assert (foldr keep_later ∅ (map_to_list m)
          = list_to_map ((fun kv : string * string => (kv.1, kv)) <$> map_to_list m))
    as ->.
  { pose proof (NoDup_fst_map_to_list m) as Hnd.
    assert (Forall (fun kv : string * string => Utf8.ToValidUTF8 kv.1 = kv.1)
              (map_to_list m)) as Hall.
    { apply List.Forall_forall. intros [k0 v] Hin.
      apply list_elem_of_In, elem_of_map_to_list in Hin. cbn. eauto. }
    induction (map_to_list m) as [| x l IH]; [reflexivity |].
    cbn [foldr fmap list_fmap] in Hnd |- *. apply NoDup_cons in Hnd as [Hx Hnd].
    inversion Hall as [| ? ? Hvx Hvl]; subst.
    rewrite (IH Hnd Hvl). unfold keep_later. rewrite Hvx.
    rewrite (not_elem_of_list_to_map_1 _ x.1); [reflexivity |].
    rewrite <- list_fmap_compose. exact Hx. }
  destruct (m !! k) as [v |] eqn:E; cbn.
  - apply elem_of_list_to_map_1.
    + rewrite <- list_fmap_compose. apply NoDup_fst_map_to_list.
    + apply (list_elem_of_fmap_2 (fun kv : string * string => (kv.1, kv)) _ (k, v)).
      now apply elem_of_map_to_list.
  - apply not_elem_of_list_to_map_1. rewrite <- list_fmap_compose.
    intros Hin. apply list_elem_of_fmap in Hin as ([k0 v] & -> & Hin).
    apply elem_of_map_to_list in Hin. cbn in E. congruence.
Qed.




Lemma echoed_args_valid (m : gmap string string) :
  map_Forall (fun k v => Utf8.ValidString k = true /\ Utf8.ValidString v = true) m ->
  echoed_args m = m.
Proof.
  intros Hall. apply map_eq. intros k. unfold echoed_args. rewrite lookup_fmap.
  rewrite written_entries_valid_keys.
  - destruct (m !! k) as [v |] eqn:E; [| reflexivity]. cbn -[Utf8.ToValidUTF8].
    destruct (Hall _ _ E) as [_ Hv]. now rewrite ValidString_fixed.
  - intros k0 v Hl. destruct (Hall _ _ Hl) as [Hk _]. now apply ValidString_fixed.
Qed.

(** *** Reading back what the marshaller wrote *)

Lemma as_args_marshal (m : gmap string string) :
  as_args (JObject (marshal_args m)) = Some (Some (echoed_args m)).
Proof.
  unfold as_args. case_decide as Hall.
  - do 2 f_equal. apply map_eq. intros k.
    unfold marshal_args, echoed_args. rewrite lookup_omap, !lookup_fmap.
    destruct (written_entries m !! k); reflexivity.
  - exfalso. apply Hall. unfold marshal_args. apply map_Forall_fmap.
    intros k v _. cbn. eauto.
Qed.

Lemma as_step_marshal (s : TmsStep) : as_step (marshal_step s) = Some (echoed_step s).
Proof.
  destruct s as [fn args]. unfold marshal_step, as_step, echoed_step, read.
  cbn [Function Args].
  destruct (String.eqb_spec fn "") as [-> | Hfn];
    destruct args as [m |]; try destruct (decide (m = ∅)) as [-> | Hm];
    repeat (rewrite lookup_insert_eq || (rewrite lookup_insert_ne by done)
            || rewrite lookup_empty);
    rewrite ?as_args_marshal; reflexivity.
Qed.


Lemma echoed_step_survives (s : TmsStep) : step_survives s -> echoed_step s = s.
Proof.
  destruct s as [fn args]. unfold step_survives, echoed_step. cbn [Function Args].
  intros [Hfn Hargs]. rewrite (ValidString_fixed _ Hfn). f_equal.
  destruct args as [m |]; [| reflexivity]. destruct Hargs as [Hne Hall].
  destruct (decide (m = ∅)); [contradiction |]. now rewrite echoed_args_valid.
Qed.

Lemma synthetic_response_of_render (ts : TmsCheck) (id : Z) :
  synthetic_response id (RenderForJSONAPI ts)
  = Some {| TmsCheckResponse.ID := id;
            TmsCheckResponse.Name := Utf8.ToValidUTF8 (Name ts);
            TmsCheckResponse.Steps := slice_map echoed_step (Steps ts);
            TmsCheckResponse.Active := Active ts;
            TmsCheckResponse.ContactIds := ContactIds ts;
            TmsCheckResponse.CustomMessage := Utf8.ToValidUTF8 (CustomMessage ts);
            TmsCheckResponse.IntegrationIds := IntegrationIds ts;
            TmsCheckResponse.Interval := Interval ts;
            TmsCheckResponse.Region := Utf8.ToValidUTF8 (Region ts);
            TmsCheckResponse.SendNotificationWhenDown := SendNotificationWhenDown ts;
            TmsCheckResponse.SeverityLevel := Utf8.ToValidUTF8 (SeverityLevel ts);
            TmsCheckResponse.Tags :=
              Some (List.map Utf8.ToValidUTF8 (wire_tags (Tags ts)));
            TmsCheckResponse.TeamIds := TeamIds ts |}.
Proof.
  destruct (RenderForJSONAPI_members ts)
    as (Hname & Hsteps & Hact & Hc & Hm & Hi & Hint & Hr & Hs & Hn & Htags & Ht).
  unfold synthetic_response, read.
  unfold RenderForJSONAPI, Marshal, member in *.
  rewrite Hname, Hsteps, Hact, Hc, Hm, Hi, Hint, Hr, Hs, Hn, Htags, Ht.
  rewrite (as_slice_marshal marshal_step as_step echoed_step (Steps ts) as_step_marshal).
  rewrite !(as_slice_marshal JNumber as_int (fun n : Z => n)) by reflexivity.
  change (JArray (marshal_string <$> wire_tags (Tags ts)))
    with (marshal_slice marshal_string (Some (wire_tags (Tags ts)))).
  rewrite (as_slice_marshal marshal_string as_string Utf8.ToValidUTF8)
    by reflexivity.
  cbn -[Utf8.ToValidUTF8]. unfold slice_map.
  destruct (ContactIds ts), (IntegrationIds ts), (TeamIds ts);
    rewrite ?List.map_id; reflexivity.
Qed.

Lemma tags_of_rendered_response (cr : TmsCheckResponse.t) :
  member "tags" (RenderForJSONAPI (fromTmsCheckResponse cr))
  = Some (JArray (marshal_string
                    <$> wire_tags (Strings.Join (elems (TmsCheckResponse.Tags cr)) ","))).
Proof.
  destruct (RenderForJSONAPI_members (fromTmsCheckResponse cr))
    as (_ & _ & _ & _ & _ & _ & _ & _ & _ & _ & Htags & _).
  exact Htags.
Qed.

(** C2, the claim as stated fails: the body rendered for a check whose
    optional fields all hold their zero value still has a member for each of
    them. *)
Lemma RenderForJSONAPI_keeps_zero_fields :
  let body := RenderForJSONAPI (bare_check "home") in
  member "contact_ids" body = Some JNull
  /\ member "custom_message" body = Some (JString "")
  /\ member "integration_ids" body = Some JNull
  /\ member "interval" body = Some (JNumber 0)
  /\ member "region" body = Some (JString "")
  /\ member "severity_level" body = Some (JString "")
  /\ member "send_notification_when_down" body = Some (JNumber 0)
  /\ member "tags" body = Some (JArray [JString ""])
  /\ member "team_ids" body = Some JNull.
Proof.
  cbv zeta. unfold RenderForJSONAPI, Marshal, member, wire_map.
  rewrite !lookup_fmap. repeat split; reflexivity.
Qed.

(** C2, amended. For every check, the body rendered for Create and Update
    has exactly the twelve members name, steps, active, contact_ids,
    custom_message, integration_ids, interval, region, severity_level,
    send_notification_when_down, tags and team_ids, whatever the fields hold:
    every optional field is emitted with its value, the zero value included,
    a string in its written form (its bytes where they are valid UTF-8,
    U+FFFD for every byte that is not). *)
Theorem RenderForJSONAPI_emits_every_field (ts : TmsCheck) :
  let body := RenderForJSONAPI ts in
  (forall k : string, is_Some (member k body) <-> k ∈ wire_keys)
  /\ member "contact_ids" body = Some (marshal_slice JNumber (ContactIds ts))
  /\ member "custom_message" body
     = Some (JString (Utf8.ToValidUTF8 (CustomMessage ts)))
  /\ member "integration_ids" body = Some (marshal_slice JNumber (IntegrationIds ts))
  /\ member "interval" body = Some (JNumber (Interval ts))
  /\ member "region" body = Some (JString (Utf8.ToValidUTF8 (Region ts)))
  /\ member "severity_level" body
     = Some (JString (Utf8.ToValidUTF8 (SeverityLevel ts)))
  /\ member "send_notification_when_down" body
     = Some (JNumber (SendNotificationWhenDown ts))
  /\ member "team_ids" body = Some (marshal_slice JNumber (TeamIds ts)).
Proof.
  cbv zeta.
  destruct (RenderForJSONAPI_members ts)
    as (Hname & Hsteps & Hact & Hc & Hm & Hi & Hint & Hr & Hs & Hn & Htags & Ht).
  unfold marshal_string in *.
  split; [| tauto].
  intros k. split.
  - unfold RenderForJSONAPI, Marshal, member. rewrite lookup_fmap.
    destruct (wire_map ts !! k) as [v |] eqn:E; [intros _ | intros [? [=]]].
    unfold wire_map in E. apply elem_of_list_to_map_2 in E.
    apply (list_elem_of_fmap_2 fst) in E. exact E.
  - unfold wire_keys. intros Hk.
    repeat (apply elem_of_cons in Hk as [-> | Hk]; [eauto |]).
    apply elem_of_nil in Hk. contradiction.
Qed.

(** C10. For every check, the wire field tags is a list with one element
    per comma-separated segment of Tags, so its length is the number of
    commas in Tags plus one; for an empty Tags it is the one-element list
    holding the empty string.  The segments hold no comma and give Tags back
    when joined with commas; each element is the written form of its segment
    without the white space around it: what is cut at either end is white
    space, and what is left neither starts nor ends with any. *)
Theorem RenderForJSONAPI_tags_segments (ts : TmsCheck) :
  member "tags" (RenderForJSONAPI ts)
  = Some (JArray (List.map
                    (fun seg => JString (Utf8.ToValidUTF8 (Strings.TrimSpace seg)))
                    (Strings.SplitComma (Tags ts))))
  /\ length (Strings.SplitComma (Tags ts)) = (Strings.CountComma (Tags ts) + 1)%nat
  /\ (Tags ts = "" ->
      member "tags" (RenderForJSONAPI ts) = Some (JArray [JString ""]))
  /\ Strings.Join (Strings.SplitComma (Tags ts)) "," = Tags ts
  /\ Forall comma_free (Strings.SplitComma (Tags ts))
  /\ Forall (fun seg => trimmed_form seg (Strings.TrimSpace seg))
       (Strings.SplitComma (Tags ts)).
Proof.
  destruct (RenderForJSONAPI_members ts)
    as (_ & _ & _ & _ & _ & _ & _ & _ & _ & _ & Htags & _).
  rewrite Htags. unfold wire_tags.
  split; [| split; [| split; [| split; [| split]]]].
  - f_equal. f_equal.
    induction (Strings.SplitComma (Tags ts)) as [| seg l IH]; cbn -[Utf8.ToValidUTF8];
      [reflexivity | f_equal; exact IH].
  - rewrite SplitComma_length. lia.
  - intros E. rewrite E. reflexivity.
  - apply Join_SplitComma.
  - apply SplitComma_comma_free.
  - apply List.Forall_forall. intros seg _. apply TrimSpace_trimmed_form.
Qed.

(** C5, the claim as stated fails: the name of [mangled_check] ends in the
    byte 0xFF and comes back ending in U+FFFD, and the empty argument map of
    its step comes back nil. *)
Lemma render_response_roundtrip_fails :
  exists cr : TmsCheckResponse.t,
    synthetic_response 7 (RenderForJSONAPI mangled_check) = Some cr
    /\ Name mangled_check = String.append "caf" byte_FF
    /\ Name (fromTmsCheckResponse cr) = String.append "caf" U_FFFD
    /\ String.eqb (Name (fromTmsCheckResponse cr)) (Name mangled_check) = false
    /\ Steps mangled_check = Some [ {| Function := "click"; Args := Some ∅ |} ]
    /\ Steps (fromTmsCheckResponse cr)
       = Some [ {| Function := "click"; Args := None |} ].
Proof.
  eexists. split; [apply synthetic_response_of_render |].
  repeat split; reflexivity.
Qed.

(** C5, amended. For every check whose Name, Region and SeverityLevel are
    valid UTF-8 and whose steps have valid UTF-8 in their function and
    arguments and an argument map that is nil or not empty, the synthetic
    response to its rendered body exists and [fromTmsCheckResponse] maps it
    to a check with the same Steps, Name, Region, SeverityLevel and Interval;
    its Tags are the written forms of the trimmed segments of the original
    Tags joined with commas, so that "a, b,c" goes over the wire as the list
    of "a", "b", "c" and comes back as "a,b,c". *)
Theorem render_response_roundtrip (ts : TmsCheck) (id : Z) :
  Utf8.ValidString (Name ts) = true ->
  Utf8.ValidString (Region ts) = true ->
  Utf8.ValidString (SeverityLevel ts) = true ->
  Forall step_survives (elems (Steps ts)) ->
  exists cr : TmsCheckResponse.t,
    synthetic_response id (RenderForJSONAPI ts) = Some cr
    /\ Steps (fromTmsCheckResponse cr) = Steps ts
    /\ Name (fromTmsCheckResponse cr) = Name ts
    /\ Region (fromTmsCheckResponse cr) = Region ts
    /\ SeverityLevel (fromTmsCheckResponse cr) = SeverityLevel ts
    /\ Interval (fromTmsCheckResponse cr) = Interval ts
    /\ Tags (fromTmsCheckResponse cr)
       = Strings.Join
           (List.map (fun seg => Utf8.ToValidUTF8 (Strings.TrimSpace seg))
              (Strings.SplitComma (Tags ts))) ","
    /\ (Tags ts = "a, b,c" ->
        member "tags" (RenderForJSONAPI ts)
        = Some (JArray [JString "a"; JString "b"; JString "c"])
        /\ TmsCheckResponse.Tags cr = Some ["a"; "b"; "c"]
        /\ Tags (fromTmsCheckResponse cr) = "a,b,c").
Proof.
  intros Hname Hregion Hseverity Hsteps.
  eexists. split; [apply synthetic_response_of_render |].
  cbn -[Utf8.ToValidUTF8 wire_tags Strings.Join RenderForJSONAPI member].
  split; [| split; [| split; [| split; [| split; [| split]]]]].
  - unfold slice_map. destruct (Steps ts) as [steps |]; [| reflexivity].
    f_equal. cbn [elems] in Hsteps.
    induction Hsteps as [| s l Hs Hl IH]; [reflexivity |].
    cbn [List.map]. now rewrite (echoed_step_survives _ Hs), IH.
  - now apply ValidString_fixed.
  - now apply ValidString_fixed.
  - now apply ValidString_fixed.
  - reflexivity.
  - unfold wire_tags. now rewrite List.map_map.
  - intros E.
    destruct (RenderForJSONAPI_members ts)
      as (_ & _ & _ & _ & _ & _ & _ & _ & _ & _ & Htags & _).
    rewrite Htags, E. repeat split; reflexivity.
Qed.

Lemma wire_tags_written (s : string) :
  Forall (fun t => comma_free t /\ trimmed t)
    (List.map Utf8.ToValidUTF8 (wire_tags s)).
Proof.
  pose proof (wire_tags_survive s) as Hall.
  induction Hall as [| t l [Hc Ht] Hl IH]; cbn [List.map]; constructor; [| exact IH].
  split; [now apply ToValidUTF8_comma_free | now apply ToValidUTF8_trimmed].
Qed.


(** X1. Every tag [RenderForJSONAPI] puts on the wire holds no comma and
    has no white space left to trim at either end, and the list of tags is
    never empty. *)
Theorem RenderForJSONAPI_tags_survive (ts : TmsCheck) :
  exists l : list string,
    member "tags" (RenderForJSONAPI ts) = Some (JArray (JString <$> l))
    /\ (1 <= length l)%nat
    /\ Forall (fun t => comma_free t /\ trimmed t) l.
Proof.
  exists (List.map Utf8.ToValidUTF8 (wire_tags (Tags ts))).
  destruct (RenderForJSONAPI_members ts)
    as (_ & _ & _ & _ & _ & _ & _ & _ & _ & _ & Htags & _).
  split; [| split; [| apply wire_tags_written]].
  - rewrite Htags. do 2 f_equal.
    change (JString <$> List.map Utf8.ToValidUTF8 (wire_tags (Tags ts)))
      with (List.map JString (List.map Utf8.ToValidUTF8 (wire_tags (Tags ts)))).
    now rewrite List.map_map.
  - rewrite List.length_map. pose proof (wire_tags_nonempty (Tags ts)) as Hne.
    destruct (wire_tags (Tags ts)); [contradiction | cbn; lia].
Qed.


(** X3. A response without tags (a nil or an empty list) becomes a check
    whose rendered body carries one tag, the empty string. *)
Theorem response_without_tags_renders_one_empty_tag (cr : TmsCheckResponse.t) :
  elems (TmsCheckResponse.Tags cr) = [] ->
  Tags (fromTmsCheckResponse cr) = ""
  /\ member "tags" (RenderForJSONAPI (fromTmsCheckResponse cr))
     = Some (JArray [JString ""]).
Proof.
  intros Hnone. split.
  - cbn. rewrite Hnone. reflexivity.
  - rewrite tags_of_rendered_response, Hnone. reflexivity.
Qed.

(** X4. The tags of a response that hold no comma and no outer white space
    are the tags of the body rendered from the translated check, each in its
    written form, provided there is at least one; where they are valid UTF-8
    the rendered tags are the tags of the response byte for byte. *)
Theorem response_tags_render_unchanged (cr : TmsCheckResponse.t) (tags : list string) :
  TmsCheckResponse.Tags cr = Some tags ->
  (1 <= length tags)%nat ->
  Forall (fun t => comma_free t /\ trimmed t) tags ->
  member "tags" (RenderForJSONAPI (fromTmsCheckResponse cr))
  = Some (JArray (List.map (fun t => JString (Utf8.ToValidUTF8 t)) tags))
  /\ (Forall (fun t => Utf8.ValidString t = true) tags ->
      member "tags" (RenderForJSONAPI (fromTmsCheckResponse cr))
      = Some (JArray (List.map JString tags))).
Proof.
  intros Htags Hlen Hall.
  assert (member "tags" (RenderForJSONAPI (fromTmsCheckResponse cr))
          = Some (JArray (List.map (fun t => JString (Utf8.ToValidUTF8 t)) tags)))
    as Hwire.
  { rewrite tags_of_rendered_response, Htags. cbn [elems].
    rewrite wire_tags_Join; [reflexivity | | exact Hall].
    destruct tags; [cbn in Hlen; lia | discriminate]. }
  split; [exact Hwire |].
  intros Hvalid. rewrite Hwire. do 2 f_equal.
  apply List.map_ext_Forall. eapply List.Forall_impl; [| exact Hvalid].
  intros t Ht. cbn beta. now rewrite ValidString_fixed.
Qed.

(** X5. A tag of a response that holds commas is split at them when the
    translated check is rendered: the rendered list has one tag per tag of
    the response and one more per comma. *)
Theorem response_tags_split_at_commas (cr : TmsCheckResponse.t) (tags : list string) :
  TmsCheckResponse.Tags cr = Some tags ->
  (1 <= length tags)%nat ->
  exists l : list string,
    member "tags" (RenderForJSONAPI (fromTmsCheckResponse cr))
    = Some (JArray (JString <$> l))
    /\ length l = (length tags + commas tags)%nat.
Proof.
  intros Htags Hlen.
  exists (List.map Utf8.ToValidUTF8
            (wire_tags (Strings.Join (elems (TmsCheckResponse.Tags cr)) ","))).
  split.
  - rewrite tags_of_rendered_response. do 2 f_equal.
    change (JString <$> ?l) with (List.map JString l).
    now rewrite List.map_map.
  - rewrite Htags. cbn [elems]. unfold wire_tags.
    rewrite !List.length_map, SplitComma_length.
    destruct tags as [| x l]; [cbn in Hlen; lia |].
    rewrite CountComma_Join. cbn [length]. lia.
Qed.

(* ===================================================================== *)
(** ** Further properties of validation and parameter mapping *)
(* ===================================================================== *)

Lemma allowed_region_spec (r : string) :
  sneq r "us-east" && sneq r "us-west" && sneq r "eu" && sneq r "au" = false
  <-> allowed_region r.
Proof.
  unfold allowed_region. rewrite !andb_false_iff, !sneq_false. tauto.
Qed.

Lemma allowed_severity_spec (v : string) :
  sneq v "high" && sneq v "low" = false <-> allowed_severity v.
Proof.
  unfold allowed_severity. rewrite !andb_false_iff, !sneq_false. tauto.
Qed.

Lemma allowed_interval_spec (n : Z) :
  zneq n 5 && zneq n 10 && zneq n 20 && zneq n 60 && zneq n 720 && zneq n 1440
  = false <-> allowed_interval n.
Proof.
  unfold allowed_interval. rewrite !andb_false_iff, !zneq_false. tauto.
Qed.

Lemma not_false_iff_true (b : bool) (P : Prop) :
  (b = false <-> P) -> (b = true <-> ~ P).
Proof.
  intros [H1 H2]. destruct b; split; intros Hb; try discriminate; try reflexivity.
  all: try (intros Hp; apply H2 in Hp; discriminate).
  all: exfalso; apply Hb, H1; reflexivity.
Qed.

(** X6. [NewTmsCheck] gives a check that passes [Valid] exactly when the
    name is not empty, whatever the steps. *)
Theorem NewTmsCheck_Valid_iff (name : string) (steps : slice TmsStep) :
  TmsCheck_Valid (NewTmsCheck name steps) = None <-> name <> "".
Proof.
  unfold TmsCheck_Valid. cbn.
  destruct (String.eqb_spec name "") as [-> | Hne]; cbn.
  - split; [discriminate | intros Hn; now destruct Hn].
  - split; [intros _; exact Hne | reflexivity].
Qed.

(** X7. [Valid] of a check reports the first rule broken, in the order
    name, region, severity level, interval, and the error carries the value
    that broke it. *)
Theorem TmsCheck_Valid_error (ts : TmsCheck) (e : ValidationError) :
  TmsCheck_Valid ts = Some e <->
  (e = ErrName /\ Name ts = "")
  \/ (e = ErrRegion (Region ts) /\ Name ts <> ""
      /\ ~ allowed_region (Region ts))
  \/ (e = ErrSeverityLevel (SeverityLevel ts) /\ Name ts <> ""
      /\ allowed_region (Region ts) /\ ~ allowed_severity (SeverityLevel ts))
  \/ (e = ErrInterval (Interval ts) /\ Name ts <> ""
      /\ allowed_region (Region ts) /\ allowed_severity (SeverityLevel ts)
      /\ ~ allowed_interval (Interval ts)).
Proof.
  unfold TmsCheck_Valid.
  destruct (String.eqb_spec (Name ts) "") as [Hn | Hn].
  { split; [intros [= <-]; tauto |]. intros [[-> _] | [H | [H | H]]]; tauto. }
  match goal with |- context [if ?b then Some (ErrRegion _) else _] =>
    destruct b eqn:Hr end.
  { apply (not_false_iff_true _ _ (allowed_region_spec _)) in Hr.
    split; [intros [= <-]; tauto |]. intros [H | [[-> _] | [H | H]]]; tauto. }
  apply allowed_region_spec in Hr.
  match goal with |- context [if ?b then Some (ErrSeverityLevel _) else _] =>
    destruct b eqn:Hs end.
  { apply (not_false_iff_true _ _ (allowed_severity_spec _)) in Hs.
    split; [intros [= <-]; tauto |]. intros [H | [H | [[-> _] | H]]]; tauto. }
  apply allowed_severity_spec in Hs.
  match goal with |- context [if ?b then Some (ErrInterval _) else _] =>
    destruct b eqn:Hi end.
  { apply (not_false_iff_true _ _ (allowed_interval_spec _)) in Hi.
    split; [intros [= <-]; tauto |]. intros [H | [H | [H | [-> _]]]]; tauto. }
  apply allowed_interval_spec in Hi.
  split; [discriminate | tauto].
Qed.

(** The three [Valid] methods of the report requests follow one order of
    checks over the fields a variant has. *)
Lemma request_Valid_uniform (q : report_request) :
  request_Valid q =
  if to_before_from (request_From q) (request_To q) then Some ErrFromAfterTo
  else if match request_Offset q with Some o => o <? 0 | None => false end
  then Some ErrOffset
  else if match request_Limit q with Some l => l <=? 0 | None => false end
  then Some ErrLimit
  else if order_allowed (request_Order q)
  then (if resolution_allowed (request_Resolution q) then None
        else Some ErrResolution)
  else Some ErrOrder.
Proof.
  destruct q as [r | r | r]; cbn.
  - unfold TmsStatusReportListRequest.Valid.
    destruct (to_before_from _ _); [reflexivity |].
    destruct (match TmsStatusReportListRequest.Offset r with
              | Some o => o <? 0 | None => false end); [reflexivity |].
    destruct (match TmsStatusReportListRequest.Limit r with
              | Some l => l <=? 0 | None => false end); reflexivity.
  - unfold TmsStatusReportListByIdRequest.Valid.
    destruct (to_before_from _ _); reflexivity.
  - unfold TmsPerformanceReportRequest.Valid.
    destruct (to_before_from _ _); [reflexivity |].
    destruct (order_allowed _); reflexivity.
Qed.

Lemma range_reversed_spec (q : report_request) :
  to_before_from (request_From q) (request_To q) = true <-> range_reversed q.
Proof.
  unfold range_reversed, to_before_from. split.
  - destruct (request_To q) as [u |]; [| discriminate].
    destruct (request_From q) as [f |]; [| discriminate].
    intros Hb. exists f, u. auto.
  - intros (f & u & -> & -> & Hb). exact Hb.
Qed.

Lemma offset_negative_spec (q : report_request) :
  match request_Offset q with Some o => o <? 0 | None => false end = true
  <-> offset_negative q.
Proof.
  unfold offset_negative. split.
  - destruct (request_Offset q) as [o |]; [| discriminate].
    intros Hb. exists o. split; [reflexivity | now apply Z.ltb_lt].
  - intros (o & -> & Hlt). now apply Z.ltb_lt.
Qed.

Lemma limit_not_positive_spec (q : report_request) :
  match request_Limit q with Some l => l <=? 0 | None => false end = true
  <-> limit_not_positive q.
Proof.
  unfold limit_not_positive. split.
  - destruct (request_Limit q) as [l |]; [| discriminate].
    intros Hb. exists l. split; [reflexivity | now apply Z.leb_le].
  - intros (l & -> & Hle). now apply Z.leb_le.
Qed.

Lemma order_unknown_spec (q : report_request) :
  order_allowed (request_Order q) = false <-> order_unknown q.
Proof.
  unfold order_unknown, order_allowed.
  rewrite !orb_false_iff, !String.eqb_neq. tauto.
Qed.

Lemma resolution_unknown_spec (q : report_request) :
  resolution_allowed (request_Resolution q) = false <-> resolution_unknown q.
Proof.
  unfold resolution_unknown, resolution_allowed.
  rewrite !orb_false_iff, !String.eqb_neq. tauto.
Qed.

Lemma not_true_iff_false (b : bool) (P : Prop) :
  (b = true <-> P) -> (b = false <-> ~ P).
Proof.
  intros [H1 H2]. destruct b; split; intros Hb; try discriminate; try reflexivity.
  all: try (intros Hp; apply H2 in Hp; discriminate).
  all: exfalso; apply Hb, H1; reflexivity.
Qed.

(** X8. For every report request of any variant, [Valid] reports the first
    rule broken, in the order: To before From, negative Offset, Limit below
    1, unknown Order, unknown Resolution. *)
Theorem request_Valid_error (q : report_request) (e : ValidationError) :
  request_Valid q = Some e <->
  (e = ErrFromAfterTo /\ range_reversed q)
  \/ (e = ErrOffset /\ ~ range_reversed q /\ offset_negative q)
  \/ (e = ErrLimit /\ ~ range_reversed q /\ ~ offset_negative q
      /\ limit_not_positive q)
  \/ (e = ErrOrder /\ ~ range_reversed q /\ ~ offset_negative q
      /\ ~ limit_not_positive q /\ order_unknown q)
  \/ (e = ErrResolution /\ ~ range_reversed q /\ ~ offset_negative q
      /\ ~ limit_not_positive q /\ ~ order_unknown q /\ resolution_unknown q).
Proof.
  rewrite request_Valid_uniform.
  destruct (to_before_from _ _) eqn:Hr.
  { apply range_reversed_spec in Hr.
    split; [intros [= <-]; tauto |].
    intros [[-> _] | [H | [H | [H | H]]]]; tauto. }
  apply (not_true_iff_false _ _ (range_reversed_spec q)) in Hr.
  destruct (match request_Offset q with Some o => o <? 0 | None => false end) eqn:Ho.
  { apply offset_negative_spec in Ho.
    split; [intros [= <-]; tauto |].
    intros [H | [[-> _] | [H | [H | H]]]]; tauto. }
  apply (not_true_iff_false _ _ (offset_negative_spec q)) in Ho.
  destruct (match request_Limit q with Some l => l <=? 0 | None => false end) eqn:Hl.
  { apply limit_not_positive_spec in Hl.
    split; [intros [= <-]; tauto |].
    intros [H | [H | [[-> _] | [H | H]]]]; tauto. }
  apply (not_true_iff_false _ _ (limit_not_positive_spec q)) in Hl.
  destruct (order_allowed (request_Order q)) eqn:Hord.
  - assert (~ order_unknown q) as Hnord.
    { intros Hu. apply order_unknown_spec in Hu. congruence. }
    destruct (resolution_allowed (request_Resolution q)) eqn:Hres.
    + assert (~ resolution_unknown q) as Hnres.
      { intros Hu. apply resolution_unknown_spec in Hu. congruence. }
      split; [discriminate | tauto].
    + apply resolution_unknown_spec in Hres.
      split; [intros [= <-]; tauto |].
      intros [H | [H | [H | [H | [-> _]]]]]; tauto.
  - apply order_unknown_spec in Hord.
    split; [intros [= <-]; tauto |].
    intros [H | [H | [H | [[-> _] | H]]]]; tauto.
Qed.

Lemma request_Valid_iff_helper (q : report_request) :
  request_Valid q = None -> other_fields_valid q.
Proof.
  rewrite request_Valid_uniform. unfold other_fields_valid.
  destruct (to_before_from _ _) eqn:Hr; [discriminate |].
  destruct (match request_Offset q with Some o => o <? 0 | None => false end)
    eqn:Ho; [discriminate |].
  destruct (match request_Limit q with Some l => l <=? 0 | None => false end)
    eqn:Hl; [discriminate |].
  destruct (order_allowed _); [| discriminate].
  destruct (resolution_allowed _); [| discriminate].
  intros _. repeat split.
  - intros o Hq. rewrite Hq in Ho. now apply Z.ltb_ge.
  - intros l Hq. rewrite Hq in Hl. now apply Z.leb_gt.
Qed.

(** X9. For every report request of any variant, [Valid] returns no error
    exactly when no rule is broken: To is not before From where both are set,
    Order and Resolution are known or empty, a set Offset is at least 0 and a
    set Limit at least 1. *)
Theorem request_Valid_iff (q : report_request) :
  request_Valid q = None <->
  (forall f u, request_From q = Some f -> request_To q = Some u ->
               Before u f = false)
  /\ other_fields_valid q.
Proof.
  rewrite request_Valid_uniform. unfold other_fields_valid. split.
  - destruct (to_before_from _ _) eqn:Hr; [discriminate |].
    destruct (match request_Offset q with Some o => o <? 0 | None => false end)
      eqn:Ho; [discriminate |].
    destruct (match request_Limit q with Some l => l <=? 0 | None => false end)
      eqn:Hl; [discriminate |].
    destruct (order_allowed _); [| discriminate].
    destruct (resolution_allowed _); [| discriminate].
    intros _. repeat split.
    + intros f u Hf Hu. rewrite Hf, Hu in Hr. exact Hr.
    + intros o Hq. rewrite Hq in Ho. now apply Z.ltb_ge.
    + intros l Hq. rewrite Hq in Hl. now apply Z.leb_gt.
  - intros (Hrange & Hord & Hres & Hoff & Hlim).
    assert (to_before_from (request_From q) (request_To q) = false) as ->.
    { unfold to_before_from.
      destruct (request_To q) as [u |]; [| reflexivity].
      destruct (request_From q) as [f |]; [| reflexivity]. now apply Hrange. }
    assert (match request_Offset q with Some o => o <? 0 | None => false end
            = false) as ->.
    { destruct (request_Offset q) as [o |]; [| reflexivity].
      apply Z.ltb_ge. now apply Hoff. }
    assert (match request_Limit q with Some l => l <=? 0 | None => false end
            = false) as ->.
    { destruct (request_Limit q) as [l |]; [| reflexivity].
      apply Z.leb_gt. now apply Hlim. }
    rewrite Hord, Hres. reflexivity.
Qed.

Lemma Before_irreflexive (t : Time) : Before t t = false.
Proof.
  unfold Before. rewrite !Z.ltb_irrefl, andb_false_r. reflexivity.
Qed.

(** X10. A report request whose From and To are the same instant is not
    refused for its time range: with the other fields valid, [Valid] returns
    no error. *)
Theorem request_Valid_equal_bounds (q : report_request) (t : Time) :
  request_From q = Some t ->
  request_To q = Some t ->
  other_fields_valid q ->
  request_Valid q = None.
Proof.
  intros Hf Hu (Hord & Hres & Hoff & Hlim).
  rewrite request_Valid_uniform. unfold to_before_from.
  rewrite Hf, Hu, Before_irreflexive, Hord, Hres.
  assert (match request_Offset q with Some o => o <? 0 | None => false end
          = false) as ->.
  { destruct (request_Offset q) as [o |]; [| reflexivity].
    apply Z.ltb_ge. now apply Hoff. }
  assert (match request_Limit q with Some l => l <=? 0 | None => false end
          = false) as ->.
  { destruct (request_Limit q) as [l |]; [| reflexivity].
    apply Z.leb_gt. now apply Hlim. }
  reflexivity.
Qed.

Lemma request_GetParams_lookup (format : Time -> string) (q : report_request) :
  request_GetParams format q !! "order" = nonempty (request_Order q)
  /\ request_GetParams format q !! "resolution" = nonempty (request_Resolution q)
  /\ request_GetParams format q !! "offset" = Itoa <$> request_Offset q
  /\ request_GetParams format q !! "limit" = Itoa <$> request_Limit q.
Proof.
  destruct q as [r | r | r];
    unfold request_GetParams, TmsStatusReportListRequest.GetParams,
      TmsStatusReportListByIdRequest.GetParams,
      TmsPerformanceReportRequest.GetParams, nonempty;
    rewrite ?length_pos_nonempty; destruct r; cbn;
    repeat match goal with
           | |- context [match ?o with Some _ => _ | None => _ end] => destruct o
           | |- context [if String.eqb ?s "" then _ else _] =>
               destruct (String.eqb s "")
           | |- context [if ?b then _ else _] => destruct b
           end;
    repeat split; simplify_map_eq; reflexivity.
Qed.

Lemma is_Some_insert_opt {A : Type} (o : option A) (f : A -> string)
    (key : string) (m : gmap string string) (j : string) :
  is_Some (match o with Some x => <[key := f x]> m | None => m end !! j) ->
  j = key \/ is_Some (m !! j).
Proof.
  destruct o as [x |]; [| now right].
  intros [v Hv]. apply lookup_insert_Some in Hv as [[<- _] | [_ Hv]]; eauto.
Qed.

Lemma is_Some_insert_if (b : bool) (key v : string)
    (m : gmap string string) (j : string) :
  is_Some ((if b then <[key := v]> m else m) !! j) ->
  j = key \/ is_Some (m !! j).
Proof.
  destruct b; [| now right].
  intros [w Hw]. apply lookup_insert_Some in Hw as [[<- _] | [_ Hw]]; eauto.
Qed.

(** X11. For every report request of any variant, [GetParams] holds no key
    besides from, to, offset, limit, order, resolution, omit_empty and
    include_uptime. *)
Theorem request_GetParams_known_keys
    (format : Time -> string) (q : report_request) (k : string) :
  is_Some (request_GetParams format q !! k) -> k ∈ param_keys.
Proof.
  intros Hk.
  destruct q as [r | r | r];
    unfold request_GetParams, TmsStatusReportListRequest.GetParams,
      TmsStatusReportListByIdRequest.GetParams,
      TmsPerformanceReportRequest.GetParams in Hk;
    cbv zeta in Hk;
    repeat (first [ apply is_Some_insert_if in Hk
                  | apply is_Some_insert_opt in Hk ];
            destruct Hk as [-> | Hk];
            [unfold param_keys; rewrite !elem_of_cons;
             repeat (first [left; reflexivity | right]) |]);
    rewrite lookup_empty in Hk; destruct Hk; discriminate.
Qed.

(** X12. A report request that passes [Valid] never sends a value the
    service does not know: an order parameter is asc or desc, a resolution
    parameter is hour, day or week, and offset and limit parameters are the
    decimals of a number of at least 0 and of at least 1. *)
Theorem valid_request_sends_known_values
    (format : Time -> string) (q : report_request) :
  request_Valid q = None ->
  (forall v, request_GetParams format q !! "order" = Some v ->
             v = ASC \/ v = DESC)
  /\ (forall v, request_GetParams format q !! "resolution" = Some v ->
                v = HOUR \/ v = DAY \/ v = WEEK)
  /\ (forall v, request_GetParams format q !! "offset" = Some v ->
                exists o, 0 <= o /\ v = Itoa o)
  /\ (forall v, request_GetParams format q !! "limit" = Some v ->
                exists l, 1 <= l /\ v = Itoa l).
Proof.
  intros Hvalid. apply request_Valid_iff_helper in Hvalid.
  destruct Hvalid as (Hord & Hres & Hoff & Hlim).
  destruct (request_GetParams_lookup format q) as (Lo & Lr & Loff & Llim).
  rewrite Lo, Lr, Loff, Llim. unfold nonempty. repeat split.
  - intros v. destruct (String.eqb_spec (request_Order q) "") as [| Hne];
      [discriminate |]. intros [= <-].
    apply order_allowed_spec in Hord. tauto.
  - intros v. destruct (String.eqb_spec (request_Resolution q) "") as [| Hne];
      [discriminate |]. intros [= <-].
    apply resolution_allowed_spec in Hres. tauto.
  - intros v. destruct (request_Offset q) as [o |]; [| discriminate].
    intros [= <-]. exists o. split; [now apply Hoff | reflexivity].
  - intros v. destruct (request_Limit q) as [l |]; [| discriminate].
    intros [= <-]. exists l. split; [| reflexivity].
    specialize (Hlim l eq_refl). lia.
Qed.

(* ===================================================================== *)
(** ** Further properties of the operations *)
(* ===================================================================== *)

(** One step of a run: decide a validation or a decoding, or take the
    answer of the collaborator to the next call. *)
Ltac run_cbn :=
  cbn -[RenderForJSONAPI TmsStatusReportListRequest.GetParams
        TmsStatusReportListByIdRequest.GetParams
        TmsPerformanceReportRequest.GetParams Itoa String.append
        TmsCheck_Valid TmsStatusReportListRequest.Valid
        TmsStatusReportListByIdRequest.Valid TmsPerformanceReportRequest.Valid
        validateResponse fromTmsCheckResponse] in *.

Ltac run_step h :=
  match goal with
  | |- context [h ?X ?c ?w] =>
      let x := fresh "x" in
      destruct (h X c w) as [x ?] eqn:?;
      try match type of x with res _ => destruct x end
  | |- context [match ?v with Some _ => _ | None => _ end] => destruct v eqn:?
  | |- context [match ?u with SetNil => _ | Filled _ _ => _ end] =>
      destruct u eqn:?
  end; run_cbn.

Section OperationFamily.

Context `{Client}.
Context {W : Type}.
Variable h : forall X, call X -> W -> X * W.
Variable formatRFC3339 : Time -> string.

(** X13. No operation retries or sends twice: against any collaborator, a
    call of any of the eight operations builds at most one request, sends at
    most one, reads at most one response body and closes at most one. *)
Theorem operation_sends_at_most_once (op : operation) (w : W) :
  let log := (run h (perform_operation formatRFC3339 op) w).2 in
  (count is_build log <= 1)%nat
  /\ (count is_issue log <= 1)%nat
  /\ (count is_read log <= 1)%nat
  /\ (count is_close log <= 1)%nat.
Proof.
  cbv zeta.
  destruct op; unfold perform_operation, tagged, List, Create, Read, Update,
    Delete, StatusReportList, StatusReportById, PerformanceReport, doInto;
    run_cbn; repeat run_step h; unfold count; cbn; lia.
Qed.

(** X14. An operation whose validation passes (List, Read and Delete have
    none) turns to the collaborator first of all to build the request of the
    table of the consumed HTTP surface: the method, the path, and the query
    parameters or the rendered body of the operation. *)
Theorem valid_operation_builds_table_request (op : operation) (w : W) :
  operation_Valid op = None ->
  exists rest,
    (run h (perform_operation formatRFC3339 op) w).2
    = Logged (table_request formatRFC3339 op) :: rest.
Proof.
  intros Hvalid.
  destruct op; cbn in Hvalid;
    unfold perform_operation, tagged, table_request, List, Create, Read, Update,
      Delete, StatusReportList, StatusReportById, PerformanceReport;
    rewrite ?Hvalid; run_cbn;
    match goal with |- context [h ?X ?c w] => destruct (h X c w) as [? ?] end;
    match goal with |- context [run h ?p ?w'] =>
      destruct (run h p w') as [[? ?] ?] end;
    eexists; reflexivity.
Qed.

(** X15. When the collaborator cannot build the request, a validated
    operation returns that error as it is and sends nothing: the one call
    made is the refused build. *)
Theorem build_error_is_returned (op : operation) (w w1 : W) (e : ClientError) :
  operation_Valid op = None ->
  h _ (table_request formatRFC3339 op) w = (Err e, w1) ->
  run h (perform_operation formatRFC3339 op) w
  = (Failed (FromClient e), w1, [Logged (table_request formatRFC3339 op)]).
Proof.
  intros Hvalid Hbuild.
  destruct op; cbn in Hvalid;
    unfold perform_operation, tagged, table_request, List, Create, Read, Update,
      Delete, StatusReportList, StatusReportById, PerformanceReport in *;
    rewrite ?Hvalid; run_cbn; rewrite Hbuild; reflexivity.
Qed.

(** X16. When the one send of an operation fails, whatever the collaborator
    would answer to any other call, a validated operation returns the error
    of the transport as it is, after exactly two calls: the build and the
    failed send. *)
Theorem transport_error_is_returned
    (op : operation) (w w1 w2 : W) (req : Request) (e : ClientError) :
  operation_Valid op = None ->
  h _ (table_request formatRFC3339 op) w = (Ok req, w1) ->
  send_fails h op req w1 e w2 ->
  run h (perform_operation formatRFC3339 op) w
  = (Failed (FromClient e), w2,
     [Logged (table_request formatRFC3339 op); sent op req]).
Proof.
  intros Hvalid Hbuild Hsend.
  destruct op; cbn in Hvalid; cbn [send_fails] in Hsend;
    unfold perform_operation, tagged, table_request, sent, List, Create, Read,
      Update, Delete, StatusReportList, StatusReportById, PerformanceReport,
      doInto in *;
    rewrite ?Hvalid; run_cbn; rewrite Hbuild; run_cbn;
    rewrite Hsend; reflexivity.
Qed.

(** X17. Create, Read and Update return the translation by
    [fromTmsCheckResponse] of the check in the envelope the collaborator
    decoded, so the identifier of the returned check is the one the service
    assigned. *)
Theorem check_operation_returns_translation
    (op : operation) (w w1 w2 : W) (req : Request)
    (m : tmsCheckDetailsJSONResponse.t) (cr : TmsCheckResponse.t) :
  reads_check op = true ->
  operation_Valid op = None ->
  h _ (table_request formatRFC3339 op) w = (Ok req, w1) ->
  h _ (Do req IntoCheckDetails) w1 = (Ok m, w2) ->
  tmsCheckDetailsJSONResponse.TmsCheck m = Some cr ->
  (run h (perform_operation formatRFC3339 op) w).1
  = (Returned (GotCheck (fromTmsCheckResponse cr)), w2)
  /\ ID (fromTmsCheckResponse cr) = TmsCheckResponse.ID cr.
Proof.
  intros Hreads Hvalid Hbuild Hdo Hcheck.
  split; [| reflexivity].
  destruct op; try discriminate Hreads; cbn in Hvalid;
    unfold perform_operation, tagged, table_request, Create, Read, Update,
      doInto in *;
    rewrite ?Hvalid; run_cbn; rewrite Hbuild; run_cbn; rewrite Hdo; run_cbn;
    unfold fromDetails; rewrite Hcheck; reflexivity.
Qed.

(** X18. Create, Read and Update panic when the collaborator decodes an
    envelope without a check: [fromTmsCheckResponse] reads the fields of the
    nil pointer, and no error is returned for it. *)
Theorem check_operation_panics_without_check
    (op : operation) (w w1 w2 : W) (req : Request)
    (m : tmsCheckDetailsJSONResponse.t) :
  reads_check op = true ->
  operation_Valid op = None ->
  h _ (table_request formatRFC3339 op) w = (Ok req, w1) ->
  h _ (Do req IntoCheckDetails) w1 = (Ok m, w2) ->
  tmsCheckDetailsJSONResponse.TmsCheck m = None ->
  (run h (perform_operation formatRFC3339 op) w).1 = (Panicked, w2).
Proof.
  intros Hreads Hvalid Hbuild Hdo Hcheck.
  destruct op; try discriminate Hreads; cbn in Hvalid;
    unfold perform_operation, tagged, table_request, Create, Read, Update,
      doInto in *;
    rewrite ?Hvalid; run_cbn; rewrite Hbuild; run_cbn; rewrite Hdo; run_cbn;
    unfold fromDetails; rewrite Hcheck; reflexivity.
Qed.

(** X19. Delete and the three report operations return what the
    collaborator decoded, unchanged. *)
Theorem decoded_response_is_returned
    (op : operation) (w w1 w2 : W) (req : Request) :
  operation_Valid op = None ->
  h _ (table_request formatRFC3339 op) w = (Ok req, w1) ->
  match op with
  | OpDelete _ =>
      forall m, h _ (Do req IntoPingdomResponse) w1 = (Ok m, w2) ->
        (run h (perform_operation formatRFC3339 op) w).1 = (Returned (GotAck m), w2)
  | OpStatusReportList _ | OpStatusReportById _ _ =>
      forall m, h _ (Do req IntoStatusChange) w1 = (Ok m, w2) ->
        (run h (perform_operation formatRFC3339 op) w).1
        = (Returned (GotStatusChange m), w2)
  | OpPerformanceReport _ _ =>
      forall m, h _ (Do req IntoPerformanceReport) w1 = (Ok m, w2) ->
        (run h (perform_operation formatRFC3339 op) w).1
        = (Returned (GotPerformance m), w2)
  | _ => True
  end.
Proof.
  intros Hvalid Hbuild.
  destruct op; try exact I; cbn in Hvalid; intros m Hdo;
    unfold perform_operation, tagged, table_request, Delete, StatusReportList,
      StatusReportById, PerformanceReport, doInto in *;
    rewrite ?Hvalid; run_cbn; rewrite Hbuild; run_cbn; rewrite Hdo; reflexivity.
Qed.

End OperationFamily.

Section ListOperation.

Context `{Client}.
Context {W : Type}.
Variable h : forall X, call X -> W -> X * W.

(** X20. List passes on a parameter mapping only when it is given exactly
    one: given none, or two or more, it behaves as if given none. *)
Theorem List_ignores_params_unless_one
    (params : list (gmap string string)) (w : W) :
  length params <> 1%nat ->
  run h (List params) w = run h (List []) w.
Proof.
  intros Hlen. unfold List.
  destruct params as [| p [| p' rest]]; [reflexivity | | reflexivity].
  cbn in Hlen. contradiction.
Qed.

(** X21. Once the transport has answered, List closes the body of the
    response exactly once on every path, and it is the last thing it does:
    after a refused status, after a decoded body, and on the way out of the
    panic. *)
Theorem List_closes_the_body
    (params : list (gmap string string)) (w w1 w2 : W)
    (req : Request) (resp : Response) :
  h _ (NewRequest "GET" "/tms/check" (match params with [p] => p | _ => ∅ end)) w
    = (Ok req, w1) ->
  h _ (HttpDo req) w1 = (Ok resp, w2) ->
  last (run h (List params) w).2 = Some (Logged (CloseBody resp))
  /\ count is_close (run h (List params) w).2 = 1%nat.
Proof.
  intros Hreq Hdo. unfold List. run_cbn. rewrite Hreq. run_cbn.
  rewrite Hdo. run_cbn.
  repeat run_step h; split; reflexivity.
Qed.

(** X22. When [validateResponse] refuses the response, List returns the
    error of that refusal as it is, and no checks. *)
Theorem List_refused_response
    (params : list (gmap string string)) (w w1 w2 : W)
    (req : Request) (resp : Response) (e : ClientError) :
  h _ (NewRequest "GET" "/tms/check" (match params with [p] => p | _ => ∅ end)) w
    = (Ok req, w1) ->
  h _ (HttpDo req) w1 = (Ok resp, w2) ->
  validateResponse resp = Some e ->
  (run h (List params) w).1.1 = Failed (FromClient e).
Proof.
  intros Hreq Hdo Hrefused.
  unfold List. run_cbn. rewrite Hreq. run_cbn. rewrite Hdo. run_cbn.
  rewrite Hrefused. run_cbn. destruct (h unit (CloseBody resp) w2). reflexivity.
Qed.

(** X23. An accepted response whose body is the JSON text null makes List
    panic: the decoder reports no error and leaves a nil envelope, whose
    checks List then reads.  The body is still closed. *)
Theorem List_panics_on_null
    (params : list (gmap string string)) (w w1 w2 w3 : W)
    (req : Request) (resp : Response) (body : string) :
  h _ (NewRequest "GET" "/tms/check" (match params with [p] => p | _ => ∅ end)) w
    = (Ok req, w1) ->
  h _ (HttpDo req) w1 = (Ok resp, w2) ->
  validateResponse resp = None ->
  h _ (ReadAll resp) w2 = (body, w3) ->
  unmarshalList body = SetNil ->
  (run h (List params) w).1.1 = Panicked
  /\ last (run h (List params) w).2 = Some (Logged (CloseBody resp)).
Proof.
  intros Hreq Hdo Haccepted Hread Hdecode. unfold List. run_cbn. rewrite Hreq.
  run_cbn. rewrite Hdo. run_cbn. rewrite Haccepted.
  run_cbn. rewrite Hread, Hdecode. run_cbn.
  destruct (h unit (CloseBody resp) w3). split; reflexivity.
Qed.

(** X24. On an accepted response List makes four calls (build, send, read,
    close) and returns one check per entry of the decoded envelope, in order,
    each translated by [fromTmsCheckResponse]; an envelope without entries
    gives the empty list, and whether the decoder reported an error plays no
    part. *)
Theorem List_returns_the_decoded_checks
    (params : list (gmap string string)) (w w1 w2 w3 w4 : W)
    (req : Request) (resp : Response) (body : string)
    (m : listTmsChecksJSONResponse.t) (err : option DecodeError) (u : unit) :
  h _ (NewRequest "GET" "/tms/check" (match params with [p] => p | _ => ∅ end)) w
    = (Ok req, w1) ->
  h _ (HttpDo req) w1 = (Ok resp, w2) ->
  validateResponse resp = None ->
  h _ (ReadAll resp) w2 = (body, w3) ->
  unmarshalList body = Filled m err ->
  h _ (CloseBody resp) w3 = (u, w4) ->
  run h (List params) w
  = (Returned (fromTmsCheckResponse <$> elems (listTmsChecksJSONResponse.TmsChecks m)),
     w4,
     [ Logged (NewRequest "GET" "/tms/check"
                 (match params with [p] => p | _ => ∅ end));
       Logged (HttpDo req);
       Logged (ReadAll resp);
       Logged (CloseBody resp) ]).
Proof.
  intros Hreq Hdo Haccepted Hread Hdecode Hclose. unfold List. run_cbn.
  rewrite Hreq. run_cbn. rewrite Hdo. run_cbn. rewrite Haccepted.
  run_cbn. rewrite Hread, Hdecode. run_cbn. rewrite Hclose. reflexivity.
Qed.

End ListOperation.

(* ===================================================================== *)
(** ** The further properties at concrete inputs *)
(* ===================================================================== *)

Lemma render_response_roundtrip_witness :
  exists cr : TmsCheckResponse.t,
    synthetic_response 7 (RenderForJSONAPI sample_check) = Some cr
    /\ Steps (fromTmsCheckResponse cr) = Steps sample_check
    /\ Name (fromTmsCheckResponse cr) = Name sample_check
    /\ Region (fromTmsCheckResponse cr) = Region sample_check
    /\ SeverityLevel (fromTmsCheckResponse cr) = SeverityLevel sample_check
    /\ Interval (fromTmsCheckResponse cr) = Interval sample_check
    /\ Tags (fromTmsCheckResponse cr)
       = Strings.Join
           (List.map (fun seg => Utf8.ToValidUTF8 (Strings.TrimSpace seg))
              (Strings.SplitComma (Tags sample_check))) ","
    /\ (Tags sample_check = "a, b,c" ->
        member "tags" (RenderForJSONAPI sample_check)
        = Some (JArray [JString "a"; JString "b"; JString "c"])
        /\ TmsCheckResponse.Tags cr = Some ["a"; "b"; "c"]
        /\ Tags (fromTmsCheckResponse cr) = "a,b,c").
Proof.
  apply (render_response_roundtrip sample_check 7); try reflexivity.
  constructor; [| constructor]. split; [reflexivity |]. cbn [Args]. split.
  - apply map_non_empty_singleton.
  - apply map_Forall_singleton. split; reflexivity.
Defined.

Lemma response_without_tags_renders_one_empty_tag_witness :
  Tags (fromTmsCheckResponse (bare_response (Some []))) = ""
  /\ member "tags" (RenderForJSONAPI (fromTmsCheckResponse (bare_response (Some []))))
     = Some (JArray [JString ""]).
Proof.
  apply response_without_tags_renders_one_empty_tag. reflexivity.
Defined.

Lemma response_tags_render_unchanged_witness :
  member "tags"
    (RenderForJSONAPI (fromTmsCheckResponse (bare_response (Some ["prod"; "web"]))))
  = Some (JArray [JString "prod"; JString "web"]).
Proof.
  apply (response_tags_render_unchanged
           (bare_response (Some ["prod"; "web"])) ["prod"; "web"]).
  - reflexivity.
  - cbn. lia.
  - repeat constructor; vm_compute; reflexivity.
  - repeat constructor.
Defined.

Lemma response_tags_split_at_commas_witness :
  exists l : list string,
    member "tags"
      (RenderForJSONAPI (fromTmsCheckResponse (bare_response (Some ["a,b"; "c"]))))
    = Some (JArray (JString <$> l))
    /\ length l = 3%nat.
Proof.
  apply (response_tags_split_at_commas
           (bare_response (Some ["a,b"; "c"])) ["a,b"; "c"]).
  - reflexivity.
  - cbn. lia.
Defined.

Lemma request_Valid_equal_bounds_witness :
  request_Valid
    (ById {| TmsStatusReportListByIdRequest.From := Some {| unixSec := 9; nanos := 1 |};
             TmsStatusReportListByIdRequest.To := Some {| unixSec := 9; nanos := 1 |};
             TmsStatusReportListByIdRequest.Order := "asc" |}) = None.
Proof.
  apply (request_Valid_equal_bounds _ {| unixSec := 9; nanos := 1 |});
    try reflexivity.
  repeat split; cbn; intros ? [=].
Defined.

Lemma request_GetParams_known_keys_witness :
  "order" ∈ param_keys.
Proof.
  apply (request_GetParams_known_keys (fun _ => "")
           (ById {| TmsStatusReportListByIdRequest.From := None;
                    TmsStatusReportListByIdRequest.To := None;
                    TmsStatusReportListByIdRequest.Order := "asc" |})).
  eexists. reflexivity.
Defined.

Lemma valid_request_sends_known_values_witness :
  let q := ForAll {| TmsStatusReportListRequest.From := None;
                     TmsStatusReportListRequest.To := None;
                     TmsStatusReportListRequest.Order := "desc";
                     TmsStatusReportListRequest.Limit := Some 25;
                     TmsStatusReportListRequest.Offset := Some 0;
                     TmsStatusReportListRequest.OmitEmpty := true |} in
  (forall v, request_GetParams (fun _ => "") q !! "order" = Some v ->
             v = ASC \/ v = DESC)
  /\ (forall v, request_GetParams (fun _ => "") q !! "resolution" = Some v ->
                v = HOUR \/ v = DAY \/ v = WEEK)
  /\ (forall v, request_GetParams (fun _ => "") q !! "offset" = Some v ->
                exists o, 0 <= o /\ v = Itoa o)
  /\ (forall v, request_GetParams (fun _ => "") q !! "limit" = Some v ->
                exists l, 1 <= l /\ v = Itoa l).
Proof.
  cbv zeta. apply valid_request_sends_known_values. reflexivity.
Defined.

Lemma valid_operation_builds_table_request_witness :
  exists rest,
    (run stub_answer (perform_operation (H := stub) (fun _ => "") (OpRead 42)) 0%nat).2
    = Logged (@NewRequest stub "GET" "/tms/check/42" ∅) :: rest.
Proof.
  apply (valid_operation_builds_table_request (H := stub) stub_answer
           (fun _ => "") (OpRead 42) 0%nat).
  reflexivity.
Defined.

Lemma build_error_is_returned_witness :
  run (scripted_answer (Some 400) None 200)
      (perform_operation (H := stub) (fun _ => "")
         (OpUpdate 42 (NewTmsCheck "home" None))) 0%nat
  = (Failed (@FromClient stub 400), 0%nat,
     [ Logged (@NewJSONRequest stub "PUT" "/tms/check/42"
                 (RenderForJSONAPI (NewTmsCheck "home" None))) ]).
Proof.
  apply (build_error_is_returned (H := stub) (scripted_answer (Some 400) None 200)
           (fun _ => "") (OpUpdate 42 (NewTmsCheck "home" None)) 0%nat 0%nat 400);
    reflexivity.
Defined.

Lemma transport_error_is_returned_witness :
  run stub_answer
      (perform_operation (H := stub) (fun _ => "")
         (OpCreate (NewTmsCheck "home" None))) 0%nat
  = (Failed (@FromClient stub 500), 1%nat,
     [ Logged (@NewJSONRequest stub "POST" "/tms/check"
                 (RenderForJSONAPI (NewTmsCheck "home" None)));
       Logged (@Do stub tt IntoCheckDetails) ]).
Proof.
  apply (transport_error_is_returned (H := stub) stub_answer
           (fun _ => "") (OpCreate (NewTmsCheck "home" None))
           0%nat 0%nat 1%nat tt 500);
    reflexivity.
Defined.

Lemma check_operation_returns_translation_witness :
  (run echo_answer
       (perform_operation (H := echo) (fun _ => "")
          (OpCreate (NewTmsCheck "home" None))) 0%nat).1.1
  = Returned (GotCheck
                {| ID := 7; Name := "home"; Steps := None; Active := true;
                   ContactIds := None; CustomMessage := ""; IntegrationIds := None;
                   Interval := 10; Region := "us-east";
                   SendNotificationWhenDown := 1; SeverityLevel := "high";
                   Tags := ""; TeamIds := None |}).
Proof.
  pose proof (check_operation_returns_translation (H := echo) echo_answer
                (fun _ => "") (OpCreate (NewTmsCheck "home" None))
                0%nat 0%nat 1%nat (RenderForJSONAPI (NewTmsCheck "home" None))
                {| tmsCheckDetailsJSONResponse.TmsCheck :=
                     synthetic_response 7 (RenderForJSONAPI (NewTmsCheck "home" None)) |}
                _ eq_refl eq_refl eq_refl eq_refl
                (synthetic_response_of_render (NewTmsCheck "home" None) 7)) as [Hrun _].
  rewrite Hrun. reflexivity.
Defined.

Lemma check_operation_panics_without_check_witness :
  (run echo_answer (perform_operation (H := echo) (fun _ => "") (OpRead 5)) 0%nat).1
  = (Panicked, 1%nat).
Proof.
  apply (check_operation_panics_without_check (H := echo) echo_answer
           (fun _ => "") (OpRead 5) 0%nat 0%nat 1%nat JNull
           {| tmsCheckDetailsJSONResponse.TmsCheck := None |});
    reflexivity.
Defined.

Lemma decoded_response_is_returned_witness :
  (run echo_answer (perform_operation (H := echo) (fun _ => "") (OpDelete 5)) 0%nat).1
  = (Returned (@GotAck echo tt), 1%nat).
Proof.
  apply (decoded_response_is_returned (H := echo) echo_answer
           (fun _ => "") (OpDelete 5) 0%nat 0%nat 1%nat JNull eq_refl eq_refl tt).
  reflexivity.
Defined.

Lemma List_ignores_params_unless_one_witness :
  run stub_answer (@List stub [ {["a" := "1"]}; {["b" := "2"]} ]) 0%nat
  = run stub_answer (@List stub []) 0%nat.
Proof.
  apply (List_ignores_params_unless_one (H := stub) stub_answer). cbn. lia.
Defined.

Lemma List_closes_the_body_witness :
  last (run stub_answer (@List stub []) 0%nat).2 = Some (Logged (@CloseBody stub 200))
  /\ count is_close (run stub_answer (@List stub []) 0%nat).2 = 1%nat.
Proof.
  apply (List_closes_the_body (H := stub) stub_answer [] 0%nat 0%nat 1%nat tt 200);
    reflexivity.
Defined.

Lemma List_refused_response_witness :
  (run (scripted_answer None None 404) (@List stub []) 0%nat).1.1
  = Failed (@FromClient stub 404).
Proof.
  apply (List_refused_response (H := stub) (scripted_answer None None 404)
           [] 0%nat 0%nat 1%nat tt 404 404); reflexivity.
Defined.

Lemma List_panics_on_null_witness :
  (run (scripted_answer None None 200) (@List stub []) 0%nat).1.1 = Panicked
  /\ last (run (scripted_answer None None 200) (@List stub []) 0%nat).2
     = Some (Logged (@CloseBody stub 200)).
Proof.
  apply (List_panics_on_null (H := stub) (scripted_answer None None 200)
           [] 0%nat 0%nat 1%nat 1%nat tt 200 "null"); reflexivity.
Defined.

Lemma List_returns_the_decoded_checks_witness :
  run echo_answer (@List echo []) 0%nat
  = (Returned [], 1%nat,
     [ Logged (@NewRequest echo "GET" "/tms/check" ∅);
       Logged (@HttpDo echo JNull);
       Logged (@ReadAll echo 200);
       Logged (@CloseBody echo 200) ]).
Proof.
  apply (List_returns_the_decoded_checks (H := echo) echo_answer
           [] 0%nat 0%nat 1%nat 1%nat 1%nat JNull 200 "{}"
           {| listTmsChecksJSONResponse.TmsChecks := Some [] |} None tt);
    reflexivity.
Defined.
